(** * A shallow embedding of the function analyzer and the function extractor

    The repository holds two tree walkers over a tree-sitter syntax tree:
    - [analyzeFunctions] (index.mjs), which emits one record per top-level
      function with its parameters, an inferred return type, the enclosing
      class and the list of called functions;
    - [getFunctionDeclarations] (the position-reporting extractor), which
      emits one record per top-level named function with its signature and
      its source span.

    Both take a source text and hand it to the parser; the embedding starts
    at the tree the parser returns.  A syntax node is a rose tree.  The
    [parent] pointer of a node is rendered by the chain of ancestors that
    the walker has gone through, nearest ancestor first; the root has the
    empty chain.  A JavaScript [TypeError] (reading [.text] of [undefined])
    is the [Throw] outcome of the [result] type. *)

From stdpp Require Import gmap strings list.

Set Warnings "-register-all".

(** ** Syntax nodes *)

Record Point := mkPoint { row : nat; column : nat }.

Inductive Node : Type := mkNode {
  type : string;
  text : string;
  fieldName : option string;   (* field under which the parent holds the node *)
  startPosition : Point;
  endPosition : Point;
  children : list Node
}.

(** [child.type === t] *)
Definition hasType (t : string) (child : Node) : bool := String.eqb (type child) t.

(** [node.childForFieldName(f)] *)
Definition childForFieldName (node : Node) (f : string) : option Node :=
  find (fun child => bool_decide (fieldName child = Some f)) (children node).

(** Truthiness of a string, and of a string that may be [null]. *)
Definition truthy (s : string) : bool := negb (String.eqb s EmptyString).

Definition truthyOpt (s : option string) : bool :=
  match s with Some s => truthy s | None => false end.

(** ** Outcomes: a value or a thrown error *)

Inductive result (A : Type) : Type :=
| Ok (a : A)
| Throw.
Arguments Ok {A} a.
Arguments Throw {A}.

Definition bind {A B : Type} (r : result A) (k : A -> result B) : result B :=
  match r with
  | Ok a => k a
  | Throw => Throw
  end.

Notation "'let*' x ':=' r 'in' k" := (bind r (fun x => k))
  (at level 10, x pattern, r at level 100, k at level 200).

(** [o.text] where [o] may be [undefined]. *)
Definition textOf (o : option Node) : result string :=
  match o with
  | Some n => Ok (text n)
  | None => Throw
  end.

(** ** The analyzer (index.mjs) *)

Record FunctionInfo := mkFunctionInfo {
  name : string;
  parameters : string;
  returnType : string;
  class : option string;
  call : option (list string)
}.

(** [isNestedFunction(node)]: the loop over [node.parent], [parent.parent],
    ... reads the chain of ancestors of [node]. *)
Fixpoint isNestedFunction (parents : list Node) : bool :=
  match parents with
  | [] => false
  | parent :: up =>
      if hasType "function" parent
         || hasType "method_definition" parent
         || hasType "arrow_function" parent
         || hasType "function_declaration" parent
      then true
      else isNestedFunction up
  end.

Fixpoint findReturnStatement (node : Node) : option Node :=
  if hasType "return_statement" node then Some node
  else (fix loop (cs : list Node) : option Node :=
          match cs with
          | [] => None
          | child :: rest =>
              match findReturnStatement child with
              | Some found => Some found
              | None => loop rest
              end
          end) (children node).

(** [body] in [determineReturnType]: the first child that is a block or an
    expression. *)
Definition arrowBody (node : Node) : option Node :=
  find (fun child => hasType "statement_block" child || hasType "expression" child)
       (children node).

(** The loop over [node.children] inside [findReturnStatement], by name. *)
Definition findReturnStatementChildren : list Node -> option Node :=
  fix loop (cs : list Node) : option Node :=
    match cs with
    | [] => None
    | child :: rest =>
        match findReturnStatement child with
        | Some found => Some found
        | None => loop rest
        end
    end.

Definition determineReturnType (node : Node) (isAsync isArrow : bool) : string :=
  if isAsync then "Promise<void>"
  else
    let early :=
      if isArrow then
        match arrowBody node with
        | Some body => if hasType "expression" body then Some "any" else None
        | None => Some "any"
        end
      else None in
    match early with
    | Some label => label
    | None =>
        match findReturnStatement node with
        | Some returnStatement =>
            match find (fun child => negb (hasType "return" child))
                       (children returnStatement) with
            | Some returnExpression =>
                if hasType "number" returnExpression then "number"
                else if hasType "string" returnExpression then "string"
                else "void"
            | None => "void"
            end
        | None => "void"
        end
    end.

(** *** Called functions *)

(** The two collections of [extractCalledFunctions]: a [Set], kept as the
    list of its elements in insertion order, and a [Map]. *)
Record CallState := mkCallState {
  calledFunctions : list string;
  classInstances : gmap string string
}.

(** [Set.prototype.add]: an element already present keeps its place. *)
Definition Set_add (x : string) (s : list string) : list string :=
  if bool_decide (x ∈ s) then s else s ++ [x].

(** [Array.prototype.push] *)
Definition push {A : Type} (x : A) (l : list A) : list A := l ++ [x].

(** The name under which a call expression [n] is looked at:
    [functionName] just before the test against ['console.log']. *)
Definition calleeName (instances : gmap string string) (n : Node) : result string :=
  let* callee := match children n !! 0%nat with
                 | Some c => Ok c
                 | None => Throw
                 end in
  let functionName := text callee in
  if hasType "member_expression" callee then
    let* object := textOf (children callee !! 0%nat) in
    let* property := textOf (children callee !! 2%nat) in
    if negb (String.eqb object "console") then
      match instances !! object with
      | Some className => Ok (className +:+ "." +:+ property)
      | None => Ok (object +:+ "." +:+ property)
      end
    else Ok functionName
  else Ok functionName.

Section CallWalk.
(** The walker is written once over the operation that stores a name;
    [extractCalledFunctions] runs it with [Set_add]. *)
Variable add : string -> list string -> list string.

(** The body of [traverseForCalls] before its loop over the children. *)
Definition visitForCalls (n : Node) (st : CallState) : result CallState :=
  if hasType "variable_declarator" n then
    let id := find (hasType "identifier") (children n) in
    let init := find (hasType "new_expression") (children n) in
    match id, init with
    | Some id, Some init =>
        match find (hasType "identifier") (children init) with
        | Some classNode =>
            if truthy (text classNode)
            then Ok (mkCallState (calledFunctions st)
                       (<[text id := text classNode]> (classInstances st)))
            else Ok st
        | None => Ok st
        end
    | _, _ => Ok st
    end
  else if hasType "call_expression" n then
    let* functionName := calleeName (classInstances st) n in
    if negb (String.eqb functionName "console.log")
    then Ok (mkCallState (add functionName (calledFunctions st)) (classInstances st))
    else Ok st
  else Ok st.

Fixpoint traverseForCallsWith (n : Node) (st : CallState) : result CallState :=
  let* st1 := visitForCalls n st in
  (fix loop (cs : list Node) (s : CallState) : result CallState :=
     match cs with
     | [] => Ok s
     | child :: rest =>
         let* s1 := traverseForCallsWith child s in
         loop rest s1
     end) (children n) st1.
End CallWalk.

(** The loop over [n.children] inside [traverseForCalls], by name. *)
Definition traverseForCallsChildren (add : string -> list string -> list string)
  : list Node -> CallState -> result CallState :=
  fix loop (cs : list Node) (s : CallState) : result CallState :=
    match cs with
    | [] => Ok s
    | child :: rest =>
        let* s1 := traverseForCallsWith add child s in
        loop rest s1
    end.

Definition traverseForCalls : Node -> CallState -> result CallState :=
  traverseForCallsWith Set_add.

Definition extractCalledFunctions (node : Node) (className : option string)
  : result (list string) :=
  let* st := traverseForCalls node (mkCallState [] ∅) in
  Ok (calledFunctions st).

(** *** One record *)

(** The first part of [extractFunctionInfo]: the function node, the name and
    the arrow flag; [None] stands for the [return null] exits. *)
Definition selectFunction (node : Node) : result (option (Node * string * bool)) :=
  if hasType "method_definition" node then
    let* name := textOf (find (hasType "property_identifier") (children node)) in
    Ok (Some (node, name, false))
  else if hasType "function_declaration" node then
    let* name := textOf (find (hasType "identifier") (children node)) in
    Ok (Some (node, name, false))
  else if hasType "lexical_declaration" node || hasType "variable_declaration" node then
    match find (hasType "variable_declarator") (children node) with
    | None => Ok None
    | Some declarator =>
        match find (fun child => hasType "arrow_function" child
                                 || hasType "function" child) (children declarator) with
        | None => Ok None
        | Some value =>
            let* name := textOf (find (hasType "identifier") (children declarator)) in
            Ok (Some (value, name, hasType "arrow_function" value))
        end
    end
  else Ok None.

(** The body of the [try] block of [extractFunctionInfo]. *)
Definition extractFunctionInfo_try (node : Node) (className : option string)
    (parents : list Node) : result (option FunctionInfo) :=
  let* selected := selectFunction node in
  match selected with
  | None => Ok None
  | Some (functionNode, name, isArrow) =>
      if isNestedFunction parents then Ok None
      else
        let* parameters :=
          textOf (find (hasType "formal_parameters") (children functionNode)) in
        let isAsync := existsb (hasType "async") (children functionNode) in
        let returnType := determineReturnType functionNode isAsync isArrow in
        let* calledFunctions := extractCalledFunctions functionNode className in
        Ok (Some {| name := name;
                    parameters := parameters;
                    returnType := returnType;
                    class := if truthyOpt className then className else None;
                    call := match calledFunctions with
                            | [] => None
                            | _ :: _ => Some calledFunctions
                            end |})
  end.

(** [extractFunctionInfo]: the [catch] clause logs the error and returns
    [null]; the two lines written to the console are left out. *)
Definition extractFunctionInfo (node : Node) (className : option string)
    (parents : list Node) : option FunctionInfo :=
  match extractFunctionInfo_try node className parents with
  | Ok info => info
  | Throw => None
  end.

(** *** The walk *)

(** The two variables that [traverse] shares with its recursive calls. *)
Record WalkState := mkWalkState {
  functions : list FunctionInfo;
  currentClass : option string
}.

(** The [switch] of [traverse]. *)
Definition enterNode (node : Node) (parents : list Node) (st : WalkState)
  : result WalkState :=
  if hasType "class_declaration" node then
    let* className := textOf (find (hasType "identifier") (children node)) in
    Ok (mkWalkState (functions st) (Some className))
  else if hasType "method_definition" node
          || hasType "function_declaration" node
          || hasType "lexical_declaration" node
          || hasType "variable_declaration" node then
    match extractFunctionInfo node (currentClass st) parents with
    | Some func => Ok (mkWalkState (push func (functions st)) (currentClass st))
    | None => Ok st
    end
  else Ok st.

(** The reset at the end of [traverse]. *)
Definition leaveNode (node : Node) (st : WalkState) : WalkState :=
  if hasType "class_declaration" node
  then mkWalkState (functions st) None
  else st.

Fixpoint traverse (node : Node) (parents : list Node) (st : WalkState)
  : result WalkState :=
  let* st1 := enterNode node parents st in
  let* st2 :=
    (fix loop (cs : list Node) (s : WalkState) : result WalkState :=
       match cs with
       | [] => Ok s
       | child :: rest =>
           let* s1 := traverse child (node :: parents) s in
           loop rest s1
       end) (children node) st1 in
  Ok (leaveNode node st2).

(** The loop over [node.children] inside [traverse], by name; [parents] is
    the chain of the children: the node and its own chain. *)
Definition traverseChildren (parents : list Node)
  : list Node -> WalkState -> result WalkState :=
  fix loop (cs : list Node) (s : WalkState) : result WalkState :=
    match cs with
    | [] => Ok s
    | child :: rest =>
        let* s1 := traverse child parents s in
        loop rest s1
    end.

(** [analyzeFunctions], from the root node of the parsed tree on. *)
Definition analyzeFunctions (rootNode : Node) : result (list FunctionInfo) :=
  let* st := traverse rootNode [] (mkWalkState [] None) in
  Ok (functions st).

(** ** The extractor (getFunctionDeclarations) *)

Module FunctionDeclaration.
Record t := mk {
  type : string;
  name : string;
  startPosition : Point;
  endPosition : Point
}.
End FunctionDeclaration.

(** The name and the signature that [traverseTree] computes for a node it
    looks at; [parent] is [node.parent]. *)
Definition nameAndSignature (node : Node) (parent : option Node)
    (currentClass : option string) : result (option string * string) :=
  if hasType "function_declaration" node then
    let nameNode := childForFieldName node "name" in
    let parametersList := childForFieldName node "parameters" in
    match nameNode with
    | Some nameNode =>
        let functionName := text nameNode in
        let* parametersText := textOf parametersList in
        Ok (Some functionName, functionName +:+ parametersText)
    | None => Ok (None, EmptyString)
    end
  else if hasType "method_definition" node then
    let nameNode := childForFieldName node "name" in
    let parametersList := childForFieldName node "parameters" in
    match nameNode with
    | Some nameNode =>
        let functionName := text nameNode in
        let* parametersText := textOf parametersList in
        Ok (Some functionName,
            match currentClass with
            | Some c => if truthy c
                        then c +:+ "." +:+ functionName +:+ parametersText
                        else functionName +:+ parametersText
            | None => functionName +:+ parametersText
            end)
    | None => Ok (None, EmptyString)
    end
  else if hasType "arrow_function" node then
    match parent with
    | Some parent =>
        if hasType "variable_declarator" parent then
          match childForFieldName parent "name" with
          | Some nameNode =>
              let functionName := text nameNode in
              let* parametersText := textOf (childForFieldName node "parameters") in
              Ok (Some functionName, functionName +:+ parametersText)
          | None => Ok (None, EmptyString)
          end
        else Ok (None, EmptyString)
    | None => Ok (None, EmptyString)
    end
  else Ok (None, EmptyString).

Fixpoint traverseTree (node : Node) (parent : option Node)
    (currentClass : option string) (insideFunction : bool)
    (functionDeclarations : list FunctionDeclaration.t)
  : result (list FunctionDeclaration.t) :=
  let currentClass :=
    if hasType "class_declaration" node || hasType "class" node then
      match childForFieldName node "name" with
      | Some nameNode => Some (text nameNode)
      | None => currentClass
      end
    else currentClass in
  if (hasType "function_declaration" node
      || hasType "method_definition" node
      || hasType "arrow_function" node) && negb insideFunction then
    let* named := nameAndSignature node parent currentClass in
    let functionName := fst named in
    let signature := snd named in
    let functionDeclarations :=
      match functionName with
      | Some functionName =>
          if truthy functionName then
            push (FunctionDeclaration.mk (type node)
                    (if truthy signature then signature else functionName)
                    (startPosition node) (endPosition node))
                 functionDeclarations
          else functionDeclarations
      | None => functionDeclarations
      end in
    (fix loop (cs : list Node) (acc : list FunctionDeclaration.t)
       : result (list FunctionDeclaration.t) :=
       match cs with
       | [] => Ok acc
       | child :: rest =>
           let* acc1 := traverseTree child (Some node) currentClass true acc in
           loop rest acc1
       end) (children node) functionDeclarations
  else
    (fix loop (cs : list Node) (acc : list FunctionDeclaration.t)
       : result (list FunctionDeclaration.t) :=
       match cs with
       | [] => Ok acc
       | child :: rest =>
           let* acc1 := traverseTree child (Some node) currentClass insideFunction acc in
           loop rest acc1
       end) (children node) functionDeclarations.

(** The loops over [node.children] inside [traverseTree], by name. *)
Definition traverseTreeChildren (parent : option Node)
    (currentClass : option string) (insideFunction : bool)
  : list Node -> list FunctionDeclaration.t -> result (list FunctionDeclaration.t) :=
  fix loop (cs : list Node) (acc : list FunctionDeclaration.t)
    : result (list FunctionDeclaration.t) :=
    match cs with
    | [] => Ok acc
    | child :: rest =>
        let* acc1 := traverseTree child parent currentClass insideFunction acc in
        loop rest acc1
    end.

Definition getFunctionDeclarations (rootNode : Node)
  : result (list FunctionDeclaration.t) :=
  traverseTree rootNode None None false [].

(** ** Writing trees down *)

(** A node without a field name, an anonymous token, and a node held under
    a field.  Spans are only read by the extractor; the trees below carry
    the span [0:0-0:0] except where a span is given. *)
Definition origin : Point := mkPoint 0 0.

Definition N (ty tx : string) (cs : list Node) : Node :=
  mkNode ty tx None origin origin cs.

Definition T (tok : string) : Node := N tok tok [].

Definition F (field ty tx : string) (cs : list Node) : Node :=
  mkNode ty tx (Some field) origin origin cs.

(** [async function hello(){ const foo=()=>123; }]
    [const greet=(name)=>{ hello(); return 123; }] *)
Definition helloGreet : Node :=
  N "program" "async function hello(){ const foo=()=>123; } const greet=(name)=>{ hello(); return 123; }"
    [ N "function_declaration" "async function hello(){ const foo=()=>123; }"
        [ T "async"; T "function";
          F "name" "identifier" "hello" [];
          F "parameters" "formal_parameters" "()" [T "("; T ")"];
          F "body" "statement_block" "{ const foo=()=>123; }"
            [ T "{";
              N "lexical_declaration" "const foo=()=>123;"
                [ T "const";
                  N "variable_declarator" "foo=()=>123"
                    [ F "name" "identifier" "foo" [];
                      T "=";
                      F "value" "arrow_function" "()=>123"
                        [ F "parameters" "formal_parameters" "()" [T "("; T ")"];
                          T "=>";
                          F "body" "number" "123" [] ] ];
                  T ";" ];
              T "}" ] ];
      N "lexical_declaration" "const greet=(name)=>{ hello(); return 123; }"
        [ T "const";
          N "variable_declarator" "greet=(name)=>{ hello(); return 123; }"
            [ F "name" "identifier" "greet" [];
              T "=";
              F "value" "arrow_function" "(name)=>{ hello(); return 123; }"
                [ F "parameters" "formal_parameters" "(name)"
                    [T "("; N "identifier" "name" []; T ")"];
                  T "=>";
                  F "body" "statement_block" "{ hello(); return 123; }"
                    [ T "{";
                      N "expression_statement" "hello();"
                        [ N "call_expression" "hello()"
                            [ F "function" "identifier" "hello" [];
                              F "arguments" "arguments" "()" [T "("; T ")"] ];
                          T ";" ];
                      N "return_statement" "return 123;"
                        [ T "return"; N "number" "123" []; T ";" ];
                      T "}" ] ] ] ] ].


(** Building blocks of the trees below. *)
Definition identifier (field tx : string) : Node := F field "identifier" tx [].

Definition emptyParameters : Node :=
  F "parameters" "formal_parameters" "()" [T "("; T ")"].

Definition block (tx : string) (statements : list Node) : Node :=
  F "body" "statement_block" tx (T "{" :: statements ++ [T "}"]).

(** The statement [f(args);] with a plain identifier as callee. *)
Definition callStatement (f args : string) : Node :=
  N "expression_statement" (f +:+ args +:+ ";")
    [ N "call_expression" (f +:+ args)
        [ identifier "function" f; F "arguments" "arguments" args [] ];
      T ";" ].

(** The statement [o.p args;] with a member access as callee. *)
Definition memberCall (o p args : string) : Node :=
  N "call_expression" (o +:+ "." +:+ p +:+ args)
    [ F "function" "member_expression" (o +:+ "." +:+ p)
        [ identifier "object" o; T "."; F "property" "property_identifier" p [] ];
      F "arguments" "arguments" args [] ].

Definition memberCallStatement (o p args : string) : Node :=
  N "expression_statement" (o +:+ "." +:+ p +:+ args +:+ ";")
    [ memberCall o p args; T ";" ].

(** [function f() { ...statements }] *)
Definition functionDeclaration (f tx : string) (statements : list Node) : Node :=
  N "function_declaration" tx
    [ T "function"; identifier "name" f; emptyParameters; block "{ ... }" statements ].

(** [const f = function() { function inner() {} };] with the span of
    [inner] filled in. *)
Definition innerDeclaration : Node :=
  mkNode "function_declaration" "function inner() {}" None
    (mkPoint 0 23) (mkPoint 0 42)
    [ T "function"; identifier "name" "inner"; emptyParameters; block "{}" [] ].

Definition nestedInFunctionExpression : Node :=
  N "program" "const f = function() { function inner() {} };"
    [ N "lexical_declaration" "const f = function() { function inner() {} };"
        [ T "const";
          N "variable_declarator" "f = function() { function inner() {} }"
            [ identifier "name" "f";
              T "=";
              F "value" "function" "function() { function inner() {} }"
                [ T "function"; emptyParameters;
                  block "{ function inner() {} }" [innerDeclaration] ] ];
          T ";" ] ].

(** [function report(){ console.error('x'); console.log('y'); }] *)
Definition consoleCalls : Node :=
  functionDeclaration "report" "function report(){ console.error('x'); console.log('y'); }"
    [ memberCallStatement "console" "error" "('x')";
      memberCallStatement "console" "log" "('y')" ].

(** [const c = new Foo();] *)
Definition newFoo : Node :=
  N "variable_declarator" "c = new Foo()"
    [ identifier "name" "c";
      T "=";
      F "value" "new_expression" "new Foo()"
        [ T "new"; identifier "constructor" "Foo";
          F "arguments" "arguments" "()" [] ] ].

(** [function run(){ const c = new Foo(); c.bar(); obj.baz(); }] *)
Definition aliasScenario : Node :=
  functionDeclaration "run" "function run(){ const c = new Foo(); c.bar(); obj.baz(); }"
    [ N "lexical_declaration" "const c = new Foo();" [T "const"; newFoo; T ";"];
      memberCallStatement "c" "bar" "()";
      memberCallStatement "obj" "baz" "()" ].

(** [class A { m1() { class B {} } m2() {} }] *)
Definition methodDefinition (m : string) (statements : list Node) : Node :=
  N "method_definition" (m +:+ "() { ... }")
    [ F "name" "property_identifier" m []; emptyParameters;
      block "{ ... }" statements ].

Definition classDeclaration (c : string) (members : list Node) : Node :=
  N "class_declaration" ("class " +:+ c +:+ " { ... }")
    [ T "class"; identifier "name" c;
      F "body" "class_body" "{ ... }" (T "{" :: members ++ [T "}"]) ].

Definition classInsideMethod : Node :=
  N "program" "class A { m1() { class B {} } m2() {} }"
    [ classDeclaration "A"
        [ methodDefinition "m1" [classDeclaration "B" []];
          methodDefinition "m2" [] ] ].

(** [function twice(){ a(); b(); a(); }] *)
Definition calledTwice : Node :=
  functionDeclaration "twice" "function twice(){ a(); b(); a(); }"
    [ callStatement "a" "()"; callStatement "b" "()"; callStatement "a" "()" ].

(** A class declaration node that has no identifier among its children. *)
Definition classWithoutName : Node :=
  N "program" "class {}"
    [ N "class_declaration" "class {}"
        [ T "class"; F "body" "class_body" "{}" [T "{"; T "}"] ] ].

(** A method node that has no property identifier among its children,
    followed by a well-formed function. *)
Definition methodWithoutName : Node :=
  N "program" "..."
    [ N "method_definition" "() {}" [ emptyParameters; block "{}" [] ];
      functionDeclaration "after" "function after() {}" [] ].

(** [x => x] bound by [const id = x => x;] *)
Definition bareParameterArrow : Node :=
  F "value" "arrow_function" "x => x"
    [ identifier "parameter" "x"; T "=>"; identifier "body" "x" ].

Definition bareParameterDeclarator : Node :=
  N "variable_declarator" "id = x => x"
    [ identifier "name" "id"; T "="; bareParameterArrow ].

Definition bareParameterDeclaration : Node :=
  N "lexical_declaration" "const id = x => x;"
    [ T "const"; bareParameterDeclarator; T ";" ].

(** [function outer(){ const inner = () => { deep(); }; }] *)
Definition deepCall : Node :=
  N "call_expression" "deep()"
    [ identifier "function" "deep"; F "arguments" "arguments" "()" [] ].

Definition callInsideInner : Node :=
  functionDeclaration "outer" "function outer(){ const inner = () => { deep(); }; }"
    [ N "lexical_declaration" "const inner = () => { deep(); };"
        [ T "const";
          N "variable_declarator" "inner = () => { deep(); }"
            [ identifier "name" "inner";
              T "=";
              F "value" "arrow_function" "() => { deep(); }"
                [ emptyParameters; T "=>";
                  block "{ deep(); }"
                    [ N "expression_statement" "deep();" [deepCall; T ";"] ] ] ];
          T ";" ] ].

(** [async function five(){ return 5; }] *)
Definition asyncReturnsFive : Node :=
  N "function_declaration" "async function five(){ return 5; }"
    [ T "async"; T "function"; identifier "name" "five"; emptyParameters;
      block "{ return 5; }"
        [ N "return_statement" "return 5;"
            [ T "return"; N "number" "5" []; T ";" ] ] ].

(** ** Notions the statements below are written in *)

(** The nodes of a tree in pre-order, left to right: the order of a
    depth-first search. *)
Fixpoint preorder (node : Node) : list Node :=
  node :: (fix loop (cs : list Node) : list Node :=
             match cs with
             | [] => []
             | child :: rest => preorder child ++ loop rest
             end) (children node).

Definition preorderChildren : list Node -> list Node :=
  fix loop (cs : list Node) : list Node :=
    match cs with
    | [] => []
    | child :: rest => preorder child ++ loop rest
    end.

(** The return-type decision table, in the order of its rules. *)
Definition firstReturnStatement (functionNode : Node) : option Node :=
  head (filter (fun n => hasType "return_statement" n = true) (preorder functionNode)).

(** The body of a function node is the child that the grammar holds
    under the field [body]; it is a block or, for an arrow function, an
    expression. *)
Definition bodyIsBlock (functionNode : Node) : bool :=
  match childForFieldName functionNode "body" with
  | Some body => hasType "statement_block" body
  | None => false
  end.

(** What a return statement returns: its first child apart from the
    [return] keyword and from comments. *)
Definition returnedValue (returnStatement : Node) : option Node :=
  find (fun child => negb (hasType "return" child || hasType "comment" child))
       (children returnStatement).

Definition inferReturnType (functionNode : Node) (isAsync isArrow : bool) : string :=
  if isAsync then "Promise<void>"                                  (* rule 1 *)
  else if isArrow && negb (bodyIsBlock functionNode) then "any"    (* rule 2 *)
  else
    match firstReturnStatement functionNode with                   (* rule 3 *)
    | Some returnStatement =>
        match returnedValue returnStatement with
        | Some e =>
            if hasType "number" e then "number"
            else if hasType "string" e then "string"
            else "void"
        | None => "void"
        end
    | None => "void"                                               (* rule 4 *)
    end.

(** The shape that the grammar gives to the children of an arrow function:
    no node has the type [expression], which names a class of node types,
    and a block among the children is the body. *)
Definition grammarArrow (node : Node) : Prop :=
  forall c, c ∈ children node ->
    hasType "expression" c = false
    /\ (hasType "statement_block" c = true ->
        childForFieldName node "body" = Some c).

(** The first return statement of the function holds no comment. *)
Definition plainFirstReturn (node : Node) : Prop :=
  forall r, firstReturnStatement node = Some r ->
    forall c, c ∈ children r -> hasType "comment" c = false.

(** [function five(){ return /* five */ 5; }] *)
Definition commentedReturnStatement : Node :=
  N "return_statement" "return /* five */ 5;"
    [ T "return"; N "comment" "/* five */" []; N "number" "5" []; T ";" ].

Definition commentedReturn : Node :=
  functionDeclaration "five" "function five(){ return /* five */ 5; }"
    [ commentedReturnStatement ].

Definition commentedReturnProgram : Node :=
  N "program" "function five(){ return /* five */ 5; }" [commentedReturn].

(** The visit of [traverseForCalls] applied to a list of nodes, one after
    the other. *)
Definition visitInOrder (add : string -> list string -> list string)
  : list Node -> CallState -> result CallState :=
  fix loop (nodes : list Node) (s : CallState) : result CallState :=
    match nodes with
    | [] => Ok s
    | n :: rest =>
        let* s1 := visitForCalls add n s in
        loop rest s1
    end.

(** The names stored for a function, one entry per stored call, in the
    order of the pre-order listing of its nodes: the visits done with an
    array in place of the set. *)
Definition callSequence (node : Node) : result (list string) :=
  let* st := visitInOrder push (preorder node) (mkCallState [] ∅) in
  Ok (calledFunctions st).

(** Keep the first occurrence of each name, drop the later ones. *)
Fixpoint firstOccurrences (l : list string) : list string :=
  match l with
  | [] => []
  | x :: rest => x :: filter (fun y => y ≠ x) (firstOccurrences rest)
  end.

(** Every class declaration of the tree has an identifier child. *)
Definition classNamed (node : Node) : bool :=
  implb (hasType "class_declaration" node)
        (existsb (hasType "identifier") (children node)).

Definition classesNamed (rootNode : Node) : bool :=
  forallb classNamed (preorder rootNode).


(** The set run and the array run side by side: same alias table, and the
    set holds the first occurrences of the array. *)
Definition sameCalls (withSet withArray : CallState) : Prop :=
  classInstances withSet = classInstances withArray
  /\ calledFunctions withSet = firstOccurrences (calledFunctions withArray).

(** Programs around the functions above. *)
Definition program (tx : string) (statements : list Node) : Node :=
  N "program" tx statements.

Definition consoleProgram : Node :=
  program "function report(){ console.error('x'); console.log('y'); }" [consoleCalls].

Definition aliasProgram : Node :=
  program "function run(){ const c = new Foo(); c.bar(); obj.baz(); }" [aliasScenario].

Definition calledTwiceProgram : Node :=
  program "function twice(){ a(); b(); a(); }" [calledTwice].

Definition bareParameterProgram : Node :=
  program "const id = x => x;" [bareParameterDeclaration].

(** [class A { a() {} } class B { b() {} } function f() {}] *)
Definition siblingClasses : Node :=
  program "class A { a() {} } class B { b() {} } function f() {}"
    [ classDeclaration "A" [methodDefinition "a" []];
      classDeclaration "B" [methodDefinition "b" []];
      functionDeclaration "f" "function f() {}" [] ].

(** The nodes that [traverse] goes through, each with its chain of
    ancestors, in the order of the walk. *)
Fixpoint visits (node : Node) (parents : list Node) : list (Node * list Node) :=
  (node, parents)
  :: (fix loop (cs : list Node) : list (Node * list Node) :=
        match cs with
        | [] => []
        | child :: rest => visits child (node :: parents) ++ loop rest
        end) (children node).

Definition visitsChildren (parents : list Node) : list Node -> list (Node * list Node) :=
  fix loop (cs : list Node) : list (Node * list Node) :=
    match cs with
    | [] => []
    | child :: rest => visits child parents ++ loop rest
    end.

(** The node types that [isNestedFunction] looks for, and those at which
    [traverseTree] raises its flag. *)
Definition isFunctionType (n : Node) : bool :=
  hasType "function" n
  || hasType "method_definition" n
  || hasType "arrow_function" n
  || hasType "function_declaration" n.

Definition raisesFlag (n : Node) : bool :=
  hasType "function_declaration" n
  || hasType "method_definition" n
  || hasType "arrow_function" n.

(** ** Notions for the properties of the walks as a whole *)

(** The node types at which [traverse] calls [extractFunctionInfo]. *)
Definition isCandidate (n : Node) : bool :=
  hasType "method_definition" n
  || hasType "function_declaration" n
  || hasType "lexical_declaration" n
  || hasType "variable_declaration" n.

(** The current class, when there is one, is the text of the first
    identifier child of a class declaration among the given nodes. *)
Definition classFrom (ps : list Node) (currentClass : option string) : Prop :=
  forall c, currentClass = Some c ->
    exists d idn,
      d ∈ ps
      /\ hasType "class_declaration" d = true
      /\ find (hasType "identifier") (children d) = Some idn
      /\ text idn = c.

(** A record of the analyzer and the step of the walk that built it. *)
Definition builtAt (v : Node * list Node) (r : FunctionInfo) : Prop :=
  isCandidate v.1 = true
  /\ (forall a, a ∈ v.2 -> isFunctionType a = false)
  /\ exists className,
       classFrom v.2 className
       /\ extractFunctionInfo v.1 className v.2 = Some r.

(** The labels of [determineReturnType]. *)
Definition returnTypeLabels : list string :=
  ["Promise<void>"; "any"; "number"; "string"; "void"].

(** A call expression on which [traverseForCalls] finds the children it
    reads: a callee, and for a member access its first and third child. *)
Definition callWellFormed (n : Node) : bool :=
  if hasType "call_expression" n then
    match children n !! 0%nat with
    | None => false
    | Some callee =>
        if hasType "member_expression" callee
        then match children callee !! 0%nat, children callee !! 2%nat with
             | Some _, Some _ => true
             | _, _ => false
             end
        else true
    end
  else true.

(** The class that [traverseTree] holds below the given chain of nodes,
    nearest first: the name of the nearest class declaration or class
    expression that has a child under the field [name]. *)
Fixpoint nearestClass (chain : list Node) : option string :=
  match chain with
  | [] => None
  | a :: up =>
      if hasType "class_declaration" a || hasType "class" a then
        match childForFieldName a "name" with
        | Some nameNode => Some (text nameNode)
        | None => nearestClass up
        end
      else nearestClass up
  end.

(** A record of the extractor and the step of the walk that reported it. *)
Definition reportedAt (v : Node * list Node) (r : FunctionDeclaration.t) : Prop :=
  raisesFlag v.1 = true
  /\ (forall a, a ∈ v.2 -> raisesFlag a = false)
  /\ FunctionDeclaration.type r = type v.1
  /\ FunctionDeclaration.startPosition r = startPosition v.1
  /\ FunctionDeclaration.endPosition r = endPosition v.1
  /\ FunctionDeclaration.name r <> EmptyString
  /\ exists functionName signature,
       nameAndSignature v.1 (head v.2) (nearestClass (v.1 :: v.2))
       = Ok (Some functionName, signature)
       /\ FunctionDeclaration.name r
          = if truthy signature then signature else functionName.



(** [class A { a() {} }] *)
Definition classA : Node := classDeclaration "A" [methodDefinition "a" []].

(** A call expression without children, inside [function broken() { }]. *)
Definition brokenCall : Node := N "call_expression" "()" [].

Definition functionWithBrokenCall : Node :=
  functionDeclaration "broken" "function broken() { ... }"
    [ N "expression_statement" "();" [brokenCall; T ";"] ].

(** ** Notions for the calls of a record *)


(** The two collections of the call walker when it comes to a node of the
    function it walks: what the visits of the nodes before it, in
    pre-order, have made of the empty set and the empty table. *)
Definition stateBefore (before : list Node) : result CallState :=
  visitInOrder Set_add before (mkCallState [] ∅).

(** The record built at a step of the walk has for calls the names stored
    during the pre-order walk of its own function node, each kept at its
    first occurrence; the field is left out when there is none. *)
Definition callsInOrder (v : Node * list Node) (r : FunctionInfo) : Prop :=
  exists className functionNode isArrow log,
    extractFunctionInfo v.1 className v.2 = Some r
    /\ selectFunction v.1 = Ok (Some (functionNode, name r, isArrow))
    /\ callSequence functionNode = Ok log
    /\ NoDup (firstOccurrences log)
    /\ call r = match firstOccurrences log with
                | [] => None
                | _ :: _ => Some (firstOccurrences log)
                end.

(** The record built at a step of the walk holds the name of every call
    expression of the subtree of its own function node, as resolved with
    the alias table at the visit of that call expression. *)
Definition callsAttributed (v : Node * list Node) (r : FunctionInfo) : Prop :=
  exists className functionNode isArrow,
    extractFunctionInfo v.1 className v.2 = Some r
    /\ selectFunction v.1 = Ok (Some (functionNode, name r, isArrow))
    /\ forall before d after,
         preorder functionNode = before ++ d :: after ->
         hasType "call_expression" d = true ->
         exists st functionName,
           stateBefore before = Ok st
           /\ calleeName (classInstances st) d = Ok functionName
           /\ (functionName <> "console.log" ->
               exists calls, call r = Some calls /\ functionName ∈ calls).

(** A candidate has the children that [extractFunctionInfo] reads: the
    name child of its kind and the parameter list of its function node. *)
Definition hasChild (t : string) (n : Node) : bool :=
  existsb (hasType t) (children n).

Definition candidateComplete (node : Node) : bool :=
  if hasType "method_definition" node then
    hasChild "property_identifier" node && hasChild "formal_parameters" node
  else if hasType "function_declaration" node then
    hasChild "identifier" node && hasChild "formal_parameters" node
  else if hasType "lexical_declaration" node || hasType "variable_declaration" node then
    match find (hasType "variable_declarator") (children node) with
    | Some declarator =>
        match find (fun child => hasType "arrow_function" child
                                 || hasType "function" child) (children declarator) with
        | Some value =>
            hasChild "identifier" declarator && hasChild "formal_parameters" value
        | None => true
        end
    | None => true
    end
  else true.

(** [function outer(){ const inner = () => { deep(); }; }] as a program. *)
Definition callInsideInnerProgram : Node :=
  program "function outer(){ const inner = () => { deep(); }; }" [callInsideInner].

(** * Properties *)

(** ** Induction over trees and the equations of the walkers *)

Lemma Node_children_ind (P : Node -> Prop) :
  (forall node, Forall P (children node) -> P node) ->
  forall node, P node.
Proof.
  intros step. fix IH 1. intros [ty tx fl sp ep cs]. apply step. simpl.
  induction cs as [|c cs IHcs]; constructor; [apply IH | exact IHcs].
Qed.

Lemma findReturnStatement_eq node :
  findReturnStatement node =
  if hasType "return_statement" node then Some node
  else findReturnStatementChildren (children node).
Proof. destruct node; reflexivity. Qed.

Lemma preorder_eq node : preorder node = node :: preorderChildren (children node).
Proof. destruct node; reflexivity. Qed.

Lemma traverseForCallsWith_eq add n st :
  traverseForCallsWith add n st =
  let* st1 := visitForCalls add n st in
  traverseForCallsChildren add (children n) st1.
Proof. destruct n; reflexivity. Qed.

Lemma traverse_eq node parents st :
  traverse node parents st =
  let* st1 := enterNode node parents st in
  let* st2 := traverseChildren (node :: parents) (children node) st1 in
  Ok (leaveNode node st2).
Proof. destruct node; reflexivity. Qed.

Lemma bind_Ok {A B : Type} (r : result A) (k : A -> result B) (b : B) :
  bind r k = Ok b -> exists a, r = Ok a /\ k a = Ok b.
Proof. destruct r as [a|]; simpl; [eauto | discriminate]. Qed.

Lemma self_in_preorder node : node ∈ preorder node.
Proof. rewrite preorder_eq. left. Qed.

Lemma child_in_preorderChildren d child cs :
  child ∈ cs -> d ∈ preorder child -> d ∈ preorderChildren cs.
Proof.
  induction 1 as [c cs|c c' cs Hin IH]; intros Hd; simpl;
    rewrite elem_of_app; [left | right]; auto.
Qed.

(** Distinct type names exclude each other. *)
Lemma hasType_other (a b : string) node :
  hasType a node = true -> a <> b -> hasType b node = false.
Proof.
  unfold hasType. intros Ha Hne. apply String.eqb_eq in Ha.
  apply String.eqb_neq. congruence.
Qed.

(** ** Return types *)

Lemma head_filter_app {A : Type} (P : A -> Prop) `{forall x, Decision (P x)}
    (l1 l2 : list A) :
  head (filter P (l1 ++ l2)) =
  match head (filter P l1) with
  | Some x => Some x
  | None => head (filter P l2)
  end.
Proof.
  rewrite filter_app. destruct (filter P l1); reflexivity.
Qed.

Lemma findReturnStatement_first node :
  findReturnStatement node = firstReturnStatement node.
Proof.
  unfold firstReturnStatement.
  induction node as [node IH] using Node_children_ind.
  rewrite findReturnStatement_eq, preorder_eq, filter_cons.
  destruct (hasType "return_statement" node) eqn:Hret.
  - rewrite decide_True by reflexivity. reflexivity.
  - rewrite decide_False by discriminate.
    induction IH as [|child rest Hchild _ IHrest]; [reflexivity|].
    simpl. rewrite head_filter_app, Hchild.
    destruct (head _); [reflexivity | exact IHrest].
Qed.

Lemma find_ext_elem_of {A : Type} (f g : A -> bool) (l : list A) :
  (forall x, x ∈ l -> f x = g x) -> find f l = find g l.
Proof.
  induction l as [|a l IH]; intros Hfg; simpl; [reflexivity|].
  rewrite (Hfg a) by left. destruct (g a); [reflexivity|].
  apply IH. intros x Hx. apply Hfg. right. exact Hx.
Qed.

(** On the trees of the grammar, for a first return statement without
    comment, [determineReturnType] is the decision table evaluated in
    order: async gives "Promise<void>" whatever the body returns;
    otherwise an arrow function whose body is not a block gives "any";
    otherwise the first return statement in depth-first order decides, a
    returned number literal giving "number" and a string literal
    "string"; every other case, a function without return statement
    included, gives "void". *)
Theorem determineReturnType_decision_table node isAsync isArrow :
  (isArrow = true -> grammarArrow node) ->
  plainFirstReturn node ->
  determineReturnType node isAsync isArrow = inferReturnType node isAsync isArrow.
Proof.
  intros Hshape Hplain.
  unfold determineReturnType, inferReturnType.
  rewrite findReturnStatement_first.
  destruct isAsync; [reflexivity|].
  assert (Hreturn :
            match firstReturnStatement node with
            | Some returnStatement =>
                match find (fun child => negb (hasType "return" child))
                           (children returnStatement) with
                | Some returnExpression =>
                    if hasType "number" returnExpression then "number"
                    else if hasType "string" returnExpression then "string"
                    else "void"
                | None => "void"
                end
            | None => "void"
            end
            = match firstReturnStatement node with
              | Some returnStatement =>
                  match returnedValue returnStatement with
                  | Some e =>
                      if hasType "number" e then "number"
                      else if hasType "string" e then "string"
                      else "void"
                  | None => "void"
                  end
              | None => "void"
              end).
  { destruct (firstReturnStatement node) as [r|] eqn:Hr; [|reflexivity].
    unfold returnedValue.
    rewrite (find_ext_elem_of
               (fun child => negb (hasType "return" child))
               (fun child => negb (hasType "return" child || hasType "comment" child))
               (children r)); [reflexivity|].
    intros c Hc. rewrite (Hplain r Hr c Hc), orb_false_r. reflexivity. }
  destruct isArrow; simpl; [|exact Hreturn].
  specialize (Hshape eq_refl). unfold bodyIsBlock.
  destruct (arrowBody node) as [body|] eqn:Hbody.
  - unfold arrowBody in Hbody. apply find_some in Hbody as [Hin Hkind].
    apply list_elem_of_In in Hin.
    destruct (Hshape body Hin) as [Hexpr Hblock].
    rewrite Hexpr in Hkind |- *. rewrite orb_false_r in Hkind.
    rewrite (Hblock Hkind), Hkind. simpl. exact Hreturn.
  - destruct (childForFieldName node "body") as [b|] eqn:Hb; [|reflexivity].
    destruct (hasType "statement_block" b) eqn:Hsb; [|reflexivity].
    exfalso. unfold childForFieldName in Hb. apply find_some in Hb as [Hin _].
    unfold arrowBody in Hbody.
    pose proof (find_none _ _ Hbody b Hin) as Hnone. simpl in Hnone.
    rewrite Hsb in Hnone. discriminate.
Qed.

(** The arrow function of [greet], whose body is a block with
    [return 123;]. *)
Lemma determineReturnType_decision_table_witness :
  exists arrow,
    arrow ∈ preorder helloGreet
    /\ determineReturnType arrow false true = inferReturnType arrow false true
    /\ inferReturnType arrow false true = "number".
Proof.
  exists (F "value" "arrow_function" "(name)=>{ hello(); return 123; }"
            [ F "parameters" "formal_parameters" "(name)"
                [T "("; N "identifier" "name" []; T ")"];
              T "=>";
              F "body" "statement_block" "{ hello(); return 123; }"
                [ T "{";
                  N "expression_statement" "hello();"
                    [ N "call_expression" "hello()"
                        [ F "function" "identifier" "hello" [];
                          F "arguments" "arguments" "()" [T "("; T ")"] ];
                      T ";" ];
                  N "return_statement" "return 123;"
                    [ T "return"; N "number" "123" []; T ";" ];
                  T "}" ] ]).
  split; [apply list_elem_of_In; vm_compute; tauto|].
  split; [|reflexivity].
  apply determineReturnType_decision_table.
  - intros _ c Hc. apply list_elem_of_In in Hc. simpl in Hc.
    destruct Hc as [<- | [<- | [<- | []]]];
      (split; [reflexivity | intros Hsb; try discriminate Hsb; reflexivity]).
  - intros r Hr c Hc. vm_compute in Hr. injection Hr as <-.
    apply list_elem_of_In in Hc. simpl in Hc.
    destruct Hc as [<- | [<- | [<- | []]]]; reflexivity.
Defined.

(** C3. On [function five(){ return /* five */ 5; }] the first return
    statement returns a number literal, so the decision table gives
    "number"; the analyzer gives "void": it takes for the returned
    expression the first child of the return statement that is not the
    [return] keyword, here the comment. *)
Theorem commented_return_infers_void :
  analyzeFunctions commentedReturnProgram
  = Ok [ {| name := "five"; parameters := "()"; returnType := "void";
            class := None; call := None |} ]
  /\ firstReturnStatement commentedReturn = Some commentedReturnStatement
  /\ returnedValue commentedReturnStatement = Some (N "number" "5" [])
  /\ inferReturnType commentedReturn false false = "number".
Proof. repeat split; vm_compute; reflexivity. Qed.

(** The precedence of rule 1 over rule 3 on
    [async function five(){ return 5; }]. *)
Example async_beats_return_five :
  determineReturnType asyncReturnsFive true false = "Promise<void>"
  /\ determineReturnType asyncReturnsFive false false = "number".
Proof. split; reflexivity. Qed.

(** ** The call walker *)

Section CallWalkFacts.
Variable add : string -> list string -> list string.

(** A property of the two collections that every visit keeps is kept
    by the whole walk. *)
Variable Inv : CallState -> Prop.
Hypothesis visit_keeps :
  forall n st st', Inv st -> visitForCalls add n st = Ok st' -> Inv st'.

Lemma traverseForCallsChildren_keeps cs :
  Forall (fun n => forall st st',
            Inv st -> traverseForCallsWith add n st = Ok st' -> Inv st') cs ->
  forall st st',
    Inv st -> traverseForCallsChildren add cs st = Ok st' -> Inv st'.
Proof.
  induction 1 as [|child rest Hchild _ IH]; intros st st' Hst Hrun; simpl in Hrun.
  - congruence.
  - apply bind_Ok in Hrun as (s1 & Hs1 & Hrest). eauto.
Qed.

Lemma traverseForCallsWith_keeps n :
  forall st st', Inv st -> traverseForCallsWith add n st = Ok st' -> Inv st'.
Proof.
  induction n as [n IH] using Node_children_ind. intros st st' Hst Hrun.
  rewrite traverseForCallsWith_eq in Hrun.
  apply bind_Ok in Hrun as (st1 & Hvisit & Hloop).
  exact (traverseForCallsChildren_keeps _ IH st1 st'
           (visit_keeps _ _ _ Hst Hvisit) Hloop).
Qed.
End CallWalkFacts.

Lemma elem_of_Set_add x y s : x ∈ Set_add y s <-> x = y \/ x ∈ s.
Proof.
  unfold Set_add. case_bool_decide as Hin.
  - split; [auto | intros [->|]; auto].
  - rewrite elem_of_app, list_elem_of_singleton. tauto.
Qed.

Lemma NoDup_Set_add x s : NoDup s -> NoDup (Set_add x s).
Proof.
  intros Hs. unfold Set_add. case_bool_decide as Hin; [exact Hs|].
  apply NoDup_app. repeat split; [exact Hs | | apply NoDup_singleton].
  intros y Hy Hyx. apply list_elem_of_singleton in Hyx. congruence.
Qed.

(** What a visit does to the set: nothing, or one [add] of a name other
    than ['console.log']. *)
Lemma visitForCalls_called add n st st' :
  visitForCalls add n st = Ok st' ->
  calledFunctions st' = calledFunctions st
  \/ exists functionName,
       calleeName (classInstances st) n = Ok functionName
       /\ functionName <> "console.log"
       /\ calledFunctions st' = add functionName (calledFunctions st).
Proof.
  unfold visitForCalls. intros Hvisit.
  destruct (hasType "variable_declarator" n).
  - destruct (find _ (children n)) as [id|]; [|left; congruence].
    destruct (find (hasType "new_expression") _) as [init|]; [|left; congruence].
    destruct (find _ (children init)) as [classNode|]; [|left; congruence].
    destruct (truthy _); injection Hvisit as <-; left; reflexivity.
  - destruct (hasType "call_expression" n); [|left; congruence].
    apply bind_Ok in Hvisit as (functionName & Hname & Hadd).
    destruct (String.eqb functionName "console.log") eqn:Hlog; simpl in Hadd;
      injection Hadd as <-; [left; reflexivity|].
    right. exists functionName. apply String.eqb_neq in Hlog. auto.
Qed.

(** The set only grows. *)
Lemma traverseForCalls_grows n st st' x :
  traverseForCalls n st = Ok st' ->
  x ∈ calledFunctions st -> x ∈ calledFunctions st'.
Proof.
  intros Hrun Hx. revert Hx Hrun.
  apply (traverseForCallsWith_keeps Set_add (fun s => x ∈ calledFunctions s)).
  clear. intros n st st' Hx Hvisit.
  apply visitForCalls_called in Hvisit as [-> | (f & _ & _ & ->)]; [exact Hx|].
  apply elem_of_Set_add. auto.
Qed.

Lemma traverseForCallsChildren_grows cs st st' x :
  traverseForCallsChildren Set_add cs st = Ok st' ->
  x ∈ calledFunctions st -> x ∈ calledFunctions st'.
Proof.
  revert st. induction cs as [|child rest IH]; intros st Hrun Hx; simpl in Hrun.
  - congruence.
  - apply bind_Ok in Hrun as (s1 & Hs1 & Hrest).
    eauto using traverseForCalls_grows.
Qed.

(** Every call expression below the walked node is looked at, and its name
    is in the set at the end unless it is ['console.log']. *)
Lemma traverseForCalls_visits_calls n :
  forall st st' d,
    traverseForCalls n st = Ok st' ->
    d ∈ preorder n ->
    hasType "call_expression" d = true ->
    exists instances functionName,
      calleeName instances d = Ok functionName
      /\ (functionName <> "console.log" -> functionName ∈ calledFunctions st').
Proof.
  induction n as [n IH] using Node_children_ind. intros st st' d Hrun Hd Hcall.
  unfold traverseForCalls in Hrun. rewrite traverseForCallsWith_eq in Hrun.
  apply bind_Ok in Hrun as (st1 & Hvisit & Hloop).
  rewrite preorder_eq in Hd. apply elem_of_cons in Hd as [-> | Hd].
  - (* the walked node itself *)
    unfold visitForCalls in Hvisit.
    rewrite (hasType_other _ "variable_declarator" n Hcall) in Hvisit by discriminate.
    rewrite Hcall in Hvisit.
    apply bind_Ok in Hvisit as (functionName & Hname & Hadd).
    exists (classInstances st), functionName. split; [exact Hname|].
    intros Hlog. apply String.eqb_neq in Hlog. rewrite Hlog in Hadd.
    injection Hadd as <-.
    eapply traverseForCallsChildren_grows; [exact Hloop|].
    apply elem_of_Set_add. auto.
  - (* below one of the children *)
    clear Hvisit st. revert st1 Hloop Hd.
    induction IH as [|child rest Hchild _ IHrest]; intros s Hloop Hd; simpl in *.
    + apply elem_of_nil in Hd as [].
    + apply bind_Ok in Hloop as (s1 & Hs1 & Hrest).
      apply elem_of_app in Hd as [Hd | Hd].
      * destruct (Hchild _ _ _ Hs1 Hd Hcall) as (instances & f & Hname & Hin).
        exists instances, f. split; [exact Hname|].
        intros Hlog. eapply traverseForCallsChildren_grows; eauto.
      * eauto.
Qed.

(** A callee that is not a member access is named by its text. *)
Lemma calleeName_plain instances n callee :
  children n !! 0%nat = Some callee ->
  hasType "member_expression" callee = false ->
  calleeName instances n = Ok (text callee).
Proof. unfold calleeName. intros -> Hplain. simpl. rewrite Hplain. reflexivity. Qed.

(** The call walker goes through the whole subtree of the node it is
    started on: every call expression below it is resolved to a name
    under some state of the alias table, and a plain callee's text is in
    the list returned unless it is "console.log". *)
Lemma extractCalledFunctions_visits_every_call
    functionNode className calls d :
  extractCalledFunctions functionNode className = Ok calls ->
  d ∈ preorder functionNode ->
  hasType "call_expression" d = true ->
  (exists instances functionName,
      calleeName instances d = Ok functionName
      /\ (functionName <> "console.log" -> functionName ∈ calls))
  /\ (forall callee,
        children d !! 0%nat = Some callee ->
        hasType "member_expression" callee = false ->
        text callee <> "console.log" ->
        text callee ∈ calls).
Proof.
  unfold extractCalledFunctions. intros Hrun Hd Hcall.
  apply bind_Ok in Hrun as (st' & Hrun & Hcalls). injection Hcalls as <-.
  destruct (traverseForCalls_visits_calls _ _ _ _ Hrun Hd Hcall)
    as (instances & f & Hname & Hin).
  split; [eauto|].
  intros callee Hcallee Hplain Hlog.
  rewrite (calleeName_plain instances d callee Hcallee Hplain) in Hname.
  injection Hname as <-. auto.
Qed.

Example nested_call_scenario :
  analyzeFunctions (program "function outer(){ const inner = () => { deep(); }; }"
                      [callInsideInner])
  = Ok [ {| name := "outer"; parameters := "()"; returnType := "void";
            class := None; call := Some ["deep"] |} ].
Proof. vm_compute. reflexivity. Qed.

(** ** Records and where they come from *)

Lemma existsb_find {A : Type} (f : A -> bool) (l : list A) :
  existsb f l = true -> exists x, find f l = Some x.
Proof.
  induction l as [|a l IH]; simpl; [discriminate|].
  destruct (f a); [eauto | exact IH].
Qed.

Lemma find_elem_of {A : Type} (f : A -> bool) (l : list A) x :
  find f l = Some x -> x ∈ l /\ f x = true.
Proof.
  intros Hfind. apply find_some in Hfind as [Hin Hf].
  split; [apply list_elem_of_In; exact Hin | exact Hf].
Qed.

Lemma elem_of_preorderChildren d cs :
  d ∈ preorderChildren cs -> exists child, child ∈ cs /\ d ∈ preorder child.
Proof.
  induction cs as [|c cs IH]; simpl; intros Hd.
  - apply elem_of_nil in Hd as [].
  - apply elem_of_app in Hd as [Hd | Hd].
    + exists c. split; [left | exact Hd].
    + destruct (IH Hd) as (child & Hin & Hchild).
      exists child. split; [right; exact Hin | exact Hchild].
Qed.

Lemma child_in_preorder child node :
  child ∈ children node -> child ∈ preorder node.
Proof.
  intros Hin. rewrite preorder_eq. right.
  eapply child_in_preorderChildren; [exact Hin | apply self_in_preorder].
Qed.

Lemma preorder_trans node :
  forall d e, d ∈ preorder node -> e ∈ preorder d -> e ∈ preorder node.
Proof.
  induction node as [node IH] using Node_children_ind. intros d e Hd He.
  rewrite preorder_eq in Hd. apply elem_of_cons in Hd as [-> | Hd]; [exact He|].
  apply elem_of_preorderChildren in Hd as (child & Hin & Hd).
  rewrite preorder_eq. right.
  eapply child_in_preorderChildren; [exact Hin|].
  rewrite Forall_forall in IH. eapply IH; eauto.
Qed.

(** The function node that [extractFunctionInfo] settles on lies in the
    subtree of the declaration. *)
Lemma selectFunction_in_preorder node functionNode fname isArrow :
  selectFunction node = Ok (Some (functionNode, fname, isArrow)) ->
  functionNode ∈ preorder node.
Proof.
  unfold selectFunction. intros Hsel.
  destruct (hasType "method_definition" node).
  { apply bind_Ok in Hsel as (? & _ & [= <- _ _]). apply self_in_preorder. }
  destruct (hasType "function_declaration" node).
  { apply bind_Ok in Hsel as (? & _ & [= <- _ _]). apply self_in_preorder. }
  destruct (_ || _); [|discriminate].
  destruct (find _ (children node)) as [declarator|] eqn:Hdecl; [|discriminate].
  destruct (find _ (children declarator)) as [value|] eqn:Hvalue; [|discriminate].
  apply bind_Ok in Hsel as (? & _ & [= <- _ _]).
  apply find_elem_of in Hdecl as [Hdecl _]. apply find_elem_of in Hvalue as [Hvalue _].
  eapply preorder_trans; [apply child_in_preorder; exact Hdecl|].
  apply child_in_preorder. exact Hvalue.
Qed.

(** Reading a record backwards: what held when it was built. *)
Lemma extractFunctionInfo_Some node className parents r :
  extractFunctionInfo node className parents = Some r ->
  exists functionNode isArrow calledFunctions,
    selectFunction node = Ok (Some (functionNode, name r, isArrow))
    /\ isNestedFunction parents = false
    /\ textOf (find (hasType "formal_parameters") (children functionNode))
       = Ok (parameters r)
    /\ returnType r =
       determineReturnType functionNode
         (existsb (hasType "async") (children functionNode)) isArrow
    /\ extractCalledFunctions functionNode className = Ok calledFunctions
    /\ class r = (if truthyOpt className then className else None)
    /\ call r = match calledFunctions with
                | [] => None
                | _ :: _ => Some calledFunctions
                end.
Proof.
  unfold extractFunctionInfo, extractFunctionInfo_try. intros Hr.
  destruct (selectFunction node) as [[[[functionNode fname] isArrow]|]|] eqn:Hsel;
    simpl in Hr; try discriminate.
  destruct (isNestedFunction parents) eqn:Hnested; [discriminate|].
  destruct (textOf _) as [params|] eqn:Hparams; simpl in Hr; [|discriminate].
  destruct (extractCalledFunctions functionNode className) as [calls|] eqn:Hcalls;
    simpl in Hr; [|discriminate].
  injection Hr as <-. simpl. exists functionNode, isArrow, calls.
  repeat split; solve [reflexivity | assumption].
Qed.

Lemma extractFunctionInfo_call node className parents r calls :
  extractFunctionInfo node className parents = Some r ->
  call r = Some calls ->
  exists functionNode,
    functionNode ∈ preorder node
    /\ extractCalledFunctions functionNode className = Ok calls.
Proof.
  intros Hr Hcall.
  apply extractFunctionInfo_Some in Hr
    as (functionNode & isArrow & cf & Hsel & _ & _ & _ & Hrun & _ & Hcf).
  exists functionNode. split; [eapply selectFunction_in_preorder; eauto|].
  rewrite Hcall in Hcf. destruct cf; [discriminate|]. congruence.
Qed.

Lemma functions_leaveNode node st : functions (leaveNode node st) = functions st.
Proof. unfold leaveNode. destruct (hasType _ node); reflexivity. Qed.

Section WalkFacts.
(** A property of records that holds of every record built for a node
    of the tree holds of the whole output. *)
Variable P : FunctionInfo -> Prop.

Lemma enterNode_Forall node parents st st' :
  (forall className r,
      extractFunctionInfo node className parents = Some r -> P r) ->
  Forall P (functions st) ->
  enterNode node parents st = Ok st' ->
  Forall P (functions st').
Proof.
  unfold enterNode. intros HP Hst Henter.
  destruct (hasType "class_declaration" node).
  { apply bind_Ok in Henter as (c & _ & [= <-]). exact Hst. }
  destruct (_ || _); [|congruence].
  destruct (extractFunctionInfo node (currentClass st) parents) as [func|] eqn:Hfunc;
    injection Henter as <-; [|exact Hst].
  simpl. unfold push. apply Forall_app. split; [exact Hst|].
  constructor; [eauto | constructor].
Qed.

Lemma traverse_functions_Forall node :
  (forall d className parents r,
      d ∈ preorder node ->
      extractFunctionInfo d className parents = Some r -> P r) ->
  forall parents st st',
    Forall P (functions st) ->
    traverse node parents st = Ok st' ->
    Forall P (functions st').
Proof.
  induction node as [node IH] using Node_children_ind.
  intros HP parents st st' Hst Hrun.
  rewrite traverse_eq in Hrun.
  apply bind_Ok in Hrun as (st1 & Henter & Hrun).
  apply bind_Ok in Hrun as (st2 & Hloop & [= <-]).
  rewrite functions_leaveNode.
  assert (Hst1 : Forall P (functions st1)).
  { eapply enterNode_Forall; [|exact Hst|exact Henter].
    intros className r. apply HP, self_in_preorder. }
  assert (Hbelow : forall d className ps r,
             d ∈ preorderChildren (children node) ->
             extractFunctionInfo d className ps = Some r -> P r).
  { intros d className ps r Hd. apply HP. rewrite preorder_eq. right. exact Hd. }
  clear Henter Hst HP st. revert st1 Hst1 Hloop.
  induction IH as [|child rest Hchild _ IHrest]; intros s Hs Hloop; simpl in Hloop.
  - congruence.
  - apply bind_Ok in Hloop as (s1 & Hs1 & Hrest).
    eapply IHrest; [|eapply Hchild; [|exact Hs|exact Hs1]|exact Hrest].
    + intros d className ps r Hd. apply (Hbelow d className ps r).
      simpl. apply elem_of_app. right. exact Hd.
    + intros d className ps r Hd. apply (Hbelow d className ps r).
      simpl. apply elem_of_app. left. exact Hd.
Qed.

Lemma analyzeFunctions_Forall rootNode records :
  (forall d className parents r,
      d ∈ preorder rootNode ->
      extractFunctionInfo d className parents = Some r -> P r) ->
  analyzeFunctions rootNode = Ok records ->
  Forall P records.
Proof.
  unfold analyzeFunctions. intros HP Hrun.
  apply bind_Ok in Hrun as (st & Hrun & [= <-]).
  eapply traverse_functions_Forall; [exact HP| |exact Hrun].
  constructor.
Qed.
End WalkFacts.

(** ** What is stored, and in which order *)

Lemma extractCalledFunctions_no_console_log node className calls :
  extractCalledFunctions node className = Ok calls -> "console.log" ∉ calls.
Proof.
  unfold extractCalledFunctions. intros Hrun.
  apply bind_Ok in Hrun as (st & Hrun & [= <-]).
  revert Hrun.
  apply (traverseForCallsWith_keeps Set_add
           (fun s => "console.log" ∉ calledFunctions s)).
  - clear. intros n st st' Hst Hvisit.
    apply visitForCalls_called in Hvisit as [-> | (f & _ & Hf & ->)]; [exact Hst|].
    rewrite elem_of_Set_add. intros [Heq | Hin]; [congruence | contradiction].
  - simpl. apply not_elem_of_nil.
Qed.

(** C2 (amended). No record's calls hold "console.log".  A call on a
    member of [console] is stored under the text of its callee, whatever
    the member is, unless that text is exactly "console.log": other
    members of [console] are stored. *)
Theorem console_log_never_recorded :
  (forall rootNode records r calls,
      analyzeFunctions rootNode = Ok records ->
      r ∈ records ->
      call r = Some calls ->
      "console.log" ∉ calls)
  /\ (forall n st callee objectNode propertyNode,
        hasType "call_expression" n = true ->
        children n !! 0%nat = Some callee ->
        hasType "member_expression" callee = true ->
        children callee !! 0%nat = Some objectNode ->
        children callee !! 2%nat = Some propertyNode ->
        text objectNode = "console" ->
        visitForCalls Set_add n st =
        Ok (if String.eqb (text callee) "console.log" then st
            else mkCallState (Set_add (text callee) (calledFunctions st))
                             (classInstances st))).
Proof.
  split.
  - intros rootNode records r calls Hrun Hr Hcall.
    pose (P := fun r : FunctionInfo =>
                 forall calls, call r = Some calls -> "console.log" ∉ calls).
    assert (Hall : Forall P records).
    { eapply analyzeFunctions_Forall; [|exact Hrun].
      intros d className parents r' _ Hr' calls' Hcall'.
      destruct (extractFunctionInfo_call _ _ _ _ _ Hr' Hcall') as (fnode & _ & Hfn).
      eapply extractCalledFunctions_no_console_log; eauto. }
    rewrite Forall_forall in Hall. exact (Hall r Hr calls Hcall).
  - intros n st callee objectNode propertyNode Hcall Hcallee Hmember Hobj Hprop Hconsole.
    unfold visitForCalls, calleeName.
    rewrite (hasType_other _ "variable_declarator" n Hcall) by discriminate.
    rewrite Hcall, Hcallee. simpl. rewrite Hmember, Hobj, Hprop. simpl.
    rewrite Hconsole. simpl.
    destruct (String.eqb (text callee) "console.log"); reflexivity.
Qed.

Lemma console_log_never_recorded_witness :
  analyzeFunctions consoleProgram
  = Ok [ {| name := "report"; parameters := "()"; returnType := "void";
            class := None; call := Some ["console.error"] |} ]
  /\ "console.log" ∉ ["console.error"].
Proof.
  assert (Hrun : analyzeFunctions consoleProgram
                 = Ok [ {| name := "report"; parameters := "()";
                           returnType := "void"; class := None;
                           call := Some ["console.error"] |} ])
    by (vm_compute; reflexivity).
  split; [exact Hrun|].
  refine (proj1 console_log_never_recorded consoleProgram _ _ _ Hrun _ _).
  - left.
  - reflexivity.
Defined.

(** On [function report(){ console.error('x'); console.log('y'); }] the
    calls of [report] hold the entry "console.error". *)
Lemma console_error_is_recorded :
  exists r calls,
    analyzeFunctions consoleProgram = Ok [r]
    /\ call r = Some calls
    /\ "console.error" ∈ calls.
Proof.
  exists {| name := "report"; parameters := "()"; returnType := "void";
            class := None; call := Some ["console.error"] |}, ["console.error"].
  split; [vm_compute; reflexivity|]. split; [reflexivity | left].
Qed.

Lemma elem_of_firstOccurrences x l : x ∈ firstOccurrences l <-> x ∈ l.
Proof.
  induction l as [|y l IH]; simpl; [reflexivity|].
  rewrite !elem_of_cons, list_elem_of_filter, IH.
  destruct (decide (x = y)); tauto.
Qed.

Lemma NoDup_firstOccurrences l : NoDup (firstOccurrences l).
Proof.
  induction l as [|y l IH]; simpl; [constructor|].
  apply NoDup_cons. split.
  - rewrite list_elem_of_filter. tauto.
  - apply NoDup_filter, IH.
Qed.

Lemma filter_Set_add x y s :
  filter (fun z => z <> y) (Set_add x s) =
  if decide (x = y) then filter (fun z => z <> y) s
  else Set_add x (filter (fun z => z <> y) s).
Proof.
  unfold Set_add. case_bool_decide as Hin.
  - destruct (decide (x = y)); [reflexivity|].
    rewrite bool_decide_eq_true_2; [reflexivity|].
    apply list_elem_of_filter. auto.
  - rewrite filter_app. destruct (decide (x = y)) as [->|Hne].
    + rewrite filter_cons_False by tauto. apply app_nil_r.
    + rewrite filter_cons_True by exact Hne.
      rewrite bool_decide_eq_false_2; [reflexivity|].
      rewrite list_elem_of_filter. tauto.
Qed.

(** Adding to the set is taking the first occurrences of a longer array. *)
Lemma firstOccurrences_push x l :
  firstOccurrences (push x l) = Set_add x (firstOccurrences l).
Proof.
  unfold push. induction l as [|y l IH]; simpl; [reflexivity|].
  rewrite IH, filter_Set_add. unfold Set_add at 2.
  destruct (decide (x = y)) as [->|Hne].
  - rewrite bool_decide_eq_true_2 by left. reflexivity.
  - unfold Set_add. case_bool_decide as Hin.
    + rewrite bool_decide_eq_true_2 by (right; exact Hin). reflexivity.
    + rewrite bool_decide_eq_false_2; [reflexivity|].
      rewrite elem_of_cons. tauto.
Qed.

Lemma visitForCalls_sameCalls n withSet withArray withSet' :
  sameCalls withSet withArray ->
  visitForCalls Set_add n withSet = Ok withSet' ->
  exists withArray',
    visitForCalls push n withArray = Ok withArray'
    /\ sameCalls withSet' withArray'.
Proof.
  intros [Hmap Hset]. unfold visitForCalls. rewrite Hmap.
  destruct (hasType "variable_declarator" n).
  - destruct (find _ (children n)) as [id|];
      [|intros [= <-]; eexists; split; [reflexivity | split; assumption]].
    destruct (find (hasType "new_expression") _) as [init|];
      [|intros [= <-]; eexists; split; [reflexivity | split; assumption]].
    destruct (find _ (children init)) as [classNode|];
      [|intros [= <-]; eexists; split; [reflexivity | split; assumption]].
    destruct (truthy _); intros [= <-]; eexists; (split; [reflexivity|]);
      split; simpl; congruence.
  - destruct (hasType "call_expression" n);
      [|intros [= <-]; eexists; split; [reflexivity | split; assumption]].
    destruct (calleeName _ n) as [functionName|]; simpl; [|discriminate].
    destruct (negb _); intros [= <-]; eexists; (split; [reflexivity|]);
      split; cbn [classInstances calledFunctions];
      try reflexivity; try assumption.
    rewrite firstOccurrences_push. congruence.
Qed.

Lemma traverseForCalls_sameCalls n :
  forall withSet withArray withSet',
    sameCalls withSet withArray ->
    traverseForCallsWith Set_add n withSet = Ok withSet' ->
    exists withArray',
      traverseForCallsWith push n withArray = Ok withArray'
      /\ sameCalls withSet' withArray'.
Proof.
  induction n as [n IH] using Node_children_ind.
  intros withSet withArray withSet' Hsame Hrun.
  rewrite traverseForCallsWith_eq in Hrun |- *.
  apply bind_Ok in Hrun as (s1 & Hvisit & Hloop).
  destruct (visitForCalls_sameCalls _ _ _ _ Hsame Hvisit) as (a1 & -> & Hsame1).
  simpl. clear Hvisit Hsame withSet withArray.
  revert s1 a1 Hsame1 Hloop.
  induction IH as [|child rest Hchild _ IHrest]; intros s a Hsame Hloop; simpl in *.
  - injection Hloop as <-. eauto.
  - apply bind_Ok in Hloop as (s1 & Hs1 & Hrest).
    destruct (Hchild _ _ _ Hsame Hs1) as (a1 & -> & Hsame1). simpl. eauto.
Qed.

Lemma bind_ext {A B : Type} (r : result A) (k1 k2 : A -> result B) :
  (forall a, k1 a = k2 a) -> bind r k1 = bind r k2.
Proof. intros Hk. destruct r; simpl; [apply Hk | reflexivity]. Qed.

Lemma visitInOrder_app add l1 l2 s :
  visitInOrder add (l1 ++ l2) s =
  let* s1 := visitInOrder add l1 s in visitInOrder add l2 s1.
Proof.
  revert s. induction l1 as [|n l1 IH]; intros s; simpl; [reflexivity|].
  destruct (visitForCalls add n s) as [s1|]; simpl; [apply IH | reflexivity].
Qed.

(** The walk is the visit of the nodes in pre-order. *)
Lemma traverseForCallsWith_preorder add n :
  forall st, traverseForCallsWith add n st = visitInOrder add (preorder n) st.
Proof.
  induction n as [n IH] using Node_children_ind. intros st.
  rewrite traverseForCallsWith_eq, preorder_eq. simpl.
  apply bind_ext. clear st.
  induction IH as [|child rest Hchild _ IHrest]; intros s; simpl; [reflexivity|].
  rewrite visitInOrder_app, Hchild. apply bind_ext. exact IHrest.
Qed.

Lemma extractCalledFunctions_first_occurrences node className calls :
  extractCalledFunctions node className = Ok calls ->
  exists log, callSequence node = Ok log /\ calls = firstOccurrences log.
Proof.
  unfold extractCalledFunctions, callSequence, traverseForCalls. intros Hrun.
  apply bind_Ok in Hrun as (st & Hrun & [= <-]).
  destruct (traverseForCalls_sameCalls node _ (mkCallState [] ∅) _
              (conj eq_refl eq_refl) Hrun) as (a & Ha & _ & Hcalls).
  rewrite traverseForCallsWith_preorder in Ha. rewrite Ha. simpl. eauto.
Qed.

(** ** Aliases *)



(** [function run(){ const c = new Foo(); c.bar(); obj.baz(); }]:
    the calls hold "Foo.bar", not "c.bar". *)
Example alias_scenario :
  analyzeFunctions aliasProgram
  = Ok [ {| name := "run"; parameters := "()"; returnType := "void";
            class := None; call := Some ["Foo.bar"; "obj.baz"] |} ].
Proof. vm_compute. reflexivity. Qed.

(** ** Candidates that are dropped, and errors *)

Lemma find_existsb_false {A : Type} (f : A -> bool) (l : list A) :
  existsb f l = false -> find f l = None.
Proof.
  induction l as [|a l IH]; simpl; [reflexivity|].
  destruct (f a); [discriminate | exact IH].
Qed.

(** C10. A lexical declaration that binds an arrow function without a
    formal-parameters child (a single parameter written without
    parentheses) gives no record: the walk goes on with its state
    unchanged, because the lookup of the parameter text throws inside the
    [try] block and the [catch] clause returns [null]. *)
Theorem bare_parameter_arrow_dropped node declarator value className parents st :
  hasType "lexical_declaration" node = true ->
  find (hasType "variable_declarator") (children node) = Some declarator ->
  find (fun child => hasType "arrow_function" child || hasType "function" child)
       (children declarator) = Some value ->
  hasType "arrow_function" value = true ->
  find (hasType "formal_parameters") (children value) = None ->
  extractFunctionInfo node className parents = None
  /\ enterNode node parents st = Ok st
  /\ (forall id,
        find (hasType "identifier") (children declarator) = Some id ->
        isNestedFunction parents = false ->
        extractFunctionInfo_try node className parents = Throw).
Proof.
  intros Hlex Hdecl Hvalue Harrow Hparams.
  assert (Htry : forall cn,
             extractFunctionInfo_try node cn parents = Throw
             \/ extractFunctionInfo_try node cn parents = Ok None).
  { intros cn. unfold extractFunctionInfo_try, selectFunction.
    rewrite (hasType_other _ "method_definition" node Hlex) by discriminate.
    rewrite (hasType_other _ "function_declaration" node Hlex) by discriminate.
    rewrite Hlex, Hdecl, Hvalue. simpl.
    destruct (find (hasType "identifier") (children declarator)); simpl; [|auto].
    destruct (isNestedFunction parents); [auto|].
    rewrite Hparams. simpl. auto. }
  assert (Hnone : forall cn, extractFunctionInfo node cn parents = None).
  { intros cn. unfold extractFunctionInfo. destruct (Htry cn) as [-> | ->]; reflexivity. }
  split; [apply Hnone|]. split.
  - unfold enterNode.
    rewrite (hasType_other _ "class_declaration" node Hlex) by discriminate.
    rewrite Hlex, Hnone. rewrite !orb_true_r. reflexivity.
  - intros id Hid Hnested. unfold extractFunctionInfo_try, selectFunction.
    rewrite (hasType_other _ "method_definition" node Hlex) by discriminate.
    rewrite (hasType_other _ "function_declaration" node Hlex) by discriminate.
    rewrite Hlex, Hdecl, Hvalue, Hid. simpl. rewrite Hnested, Hparams. reflexivity.
Qed.

(** [const id = x => x;] *)
Lemma bare_parameter_arrow_dropped_witness :
  extractFunctionInfo bareParameterDeclaration None [bareParameterProgram] = None
  /\ enterNode bareParameterDeclaration [bareParameterProgram] (mkWalkState [] None)
     = Ok (mkWalkState [] None)
  /\ extractFunctionInfo_try bareParameterDeclaration None [bareParameterProgram]
     = Throw.
Proof.
  destruct (bare_parameter_arrow_dropped
              bareParameterDeclaration bareParameterDeclarator bareParameterArrow
              None [bareParameterProgram] (mkWalkState [] None)
              eq_refl eq_refl eq_refl eq_refl eq_refl) as (Hnone & Henter & Hthrow).
  split; [exact Hnone|]. split; [exact Henter|].
  exact (Hthrow (identifier "name" "id") eq_refl eq_refl).
Defined.

Example bare_parameter_program :
  analyzeFunctions bareParameterProgram = Ok [].
Proof. vm_compute. reflexivity. Qed.

(** The outcome of the [switch]: it throws exactly at a class declaration
    without identifier child. *)
Lemma enterNode_outcome node parents st :
  if classNamed node
  then exists st1, enterNode node parents st = Ok st1
  else enterNode node parents st = Throw.
Proof.
  unfold classNamed, enterNode.
  destruct (hasType "class_declaration" node); simpl.
  - destruct (existsb _ (children node)) eqn:Hid.
    + apply existsb_find in Hid as (c & ->). simpl. eauto.
    + rewrite (find_existsb_false _ _ Hid). reflexivity.
  - destruct (_ || _); [|eauto].
    destruct (extractFunctionInfo _ _ _); eauto.
Qed.

Lemma traverse_outcome node :
  forall parents st,
    if forallb classNamed (preorder node)
    then exists st', traverse node parents st = Ok st'
    else traverse node parents st = Throw.
Proof.
  induction node as [node IH] using Node_children_ind. intros parents st.
  rewrite traverse_eq, preorder_eq. simpl.
  pose proof (enterNode_outcome node parents st) as Henter.
  destruct (classNamed node); simpl; [|rewrite Henter; reflexivity].
  destruct Henter as (st1 & ->). simpl.
  assert (Hloop : forall s,
             if forallb classNamed (preorderChildren (children node))
             then exists s', traverseChildren (node :: parents) (children node) s = Ok s'
             else traverseChildren (node :: parents) (children node) s = Throw).
  { induction IH as [|child rest Hchild _ IHrest]; intros s; simpl; [eauto|].
    rewrite forallb_app. specialize (Hchild (node :: parents) s).
    destruct (forallb classNamed (preorder child)); simpl.
    - destruct Hchild as (s1 & ->). simpl. apply IHrest.
    - rewrite Hchild. reflexivity. }
  specialize (Hloop st1).
  destruct (forallb classNamed (preorderChildren (children node))).
  - destruct Hloop as (s' & ->). simpl. eauto.
  - rewrite Hloop. reflexivity.
Qed.

(** On a node that is not a class declaration the [switch] never throws:
    it leaves the output as it is or appends one record.  The walk as a
    whole throws exactly when the tree holds a class declaration without
    identifier child, whose name is read outside the [try] block. *)
Lemma traverse_throws_exactly_at_unnamed_class :
  (forall node parents st,
      hasType "class_declaration" node = false ->
      enterNode node parents st = Ok st
      \/ exists func,
           enterNode node parents st
           = Ok (mkWalkState (push func (functions st)) (currentClass st)))
  /\ (forall node parents st,
        hasType "method_definition" node = true ->
        find (hasType "property_identifier") (children node) = None ->
        enterNode node parents st = Ok st)
  /\ (forall rootNode,
        classesNamed rootNode = true ->
        exists records, analyzeFunctions rootNode = Ok records)
  /\ (forall rootNode,
        classesNamed rootNode = false ->
        analyzeFunctions rootNode = Throw).
Proof.
  split; [|split; [|split]].
  - intros node parents st Hclass. unfold enterNode. rewrite Hclass.
    destruct (_ || _); [|auto].
    destruct (extractFunctionInfo _ _ _) as [func|]; eauto.
  - intros node parents st Hmethod Hname. unfold enterNode.
    rewrite (hasType_other _ "class_declaration" node Hmethod) by discriminate.
    rewrite Hmethod. simpl.
    unfold extractFunctionInfo, extractFunctionInfo_try, selectFunction.
    rewrite Hmethod, Hname. reflexivity.
  - intros rootNode Hnamed. unfold analyzeFunctions, classesNamed in *.
    pose proof (traverse_outcome rootNode [] (mkWalkState [] None)) as Hout.
    rewrite Hnamed in Hout. destruct Hout as (st' & ->). simpl. eauto.
  - intros rootNode Hnamed. unfold analyzeFunctions, classesNamed in *.
    pose proof (traverse_outcome rootNode [] (mkWalkState [] None)) as Hout.
    rewrite Hnamed in Hout. rewrite Hout. reflexivity.
Qed.

(** A method without name in front of [function after() {}]: the method is
    left out, the function is reported. *)
Example method_without_name_skipped :
  analyzeFunctions methodWithoutName
  = Ok [ {| name := "after"; parameters := "()"; returnType := "void";
            class := None; call := None |} ].
Proof. vm_compute. reflexivity. Qed.

(** A class declaration node without identifier child, which the grammar
    does not produce, makes the whole analysis throw. *)
Example unnamed_class_declaration_throws :
  analyzeFunctions classWithoutName = Throw.
Proof. vm_compute. reflexivity. Qed.

(** ** Scenarios *)

(** C8. On [async function hello(){ const foo=()=>123; }] followed by
    [const greet=(name)=>{ hello(); return 123; }] the output is exactly
    two records: [hello] with return type "Promise<void>" and no calls
    entry, the inner [foo] being left out, and [greet] with return type
    "number" and the calls [hello]. *)
Theorem scenario_hello_greet :
  analyzeFunctions helloGreet
  = Ok [ {| name := "hello"; parameters := "()"; returnType := "Promise<void>";
            class := None; call := None |};
         {| name := "greet"; parameters := "(name)"; returnType := "number";
            class := None; call := Some ["hello"] |} ].
Proof. vm_compute. reflexivity. Qed.

(** ** Classes *)

(** The reset at the end of [traverse]: after the subtree of a class
    declaration the current class is absent. *)
Lemma traverse_leaves_class_absent node parents st st' :
  hasType "class_declaration" node = true ->
  traverse node parents st = Ok st' ->
  currentClass st' = None.
Proof.
  intros Hclass Hrun. rewrite traverse_eq in Hrun.
  apply bind_Ok in Hrun as (st1 & _ & Hrun).
  apply bind_Ok in Hrun as (st2 & _ & [= <-]).
  unfold leaveNode. rewrite Hclass. reflexivity.
Qed.

(** Classes side by side keep their methods apart, and a function after
    them has no class. *)
Example sibling_classes_scoped :
  analyzeFunctions siblingClasses
  = Ok [ {| name := "a"; parameters := "()"; returnType := "void";
            class := Some "A"; call := None |};
         {| name := "b"; parameters := "()"; returnType := "void";
            class := Some "B"; call := None |};
         {| name := "f"; parameters := "()"; returnType := "void";
            class := None; call := None |} ].
Proof. vm_compute. reflexivity. Qed.

(** C5. On [class A { m1() { class B {} } m2() {} }] the method [m2] of
    class [A] is emitted without class: the reset at the end of the inner
    class declaration [B] clears the current class while the walk is still
    inside [A].  The extractor, which hands the class down as an argument,
    names both methods after [A]. *)
Theorem method_after_inner_class_loses_class :
  analyzeFunctions classInsideMethod
  = Ok [ {| name := "m1"; parameters := "()"; returnType := "void";
            class := Some "A"; call := None |};
         {| name := "m2"; parameters := "()"; returnType := "void";
            class := None; call := None |} ]
  /\ getFunctionDeclarations classInsideMethod
     = Ok [ FunctionDeclaration.mk "method_definition" "A.m1()" origin origin;
            FunctionDeclaration.mk "method_definition" "A.m2()" origin origin ].
Proof. split; vm_compute; reflexivity. Qed.

(** ** Nesting *)

Lemma visits_eq node parents :
  visits node parents = (node, parents) :: visitsChildren (node :: parents) (children node).
Proof. destruct node; reflexivity. Qed.

Lemma traverseTree_eq node parent currentClass insideFunction acc :
  traverseTree node parent currentClass insideFunction acc =
  let currentClass :=
    if hasType "class_declaration" node || hasType "class" node then
      match childForFieldName node "name" with
      | Some nameNode => Some (text nameNode)
      | None => currentClass
      end
    else currentClass in
  if raisesFlag node && negb insideFunction then
    let* named := nameAndSignature node parent currentClass in
    let acc :=
      match fst named with
      | Some functionName =>
          if truthy functionName then
            push (FunctionDeclaration.mk (type node)
                    (if truthy (snd named) then snd named else functionName)
                    (startPosition node) (endPosition node))
                 acc
          else acc
      | None => acc
      end in
    traverseTreeChildren (Some node) currentClass true (children node) acc
  else
    traverseTreeChildren (Some node) currentClass insideFunction (children node) acc.
Proof. destruct node; reflexivity. Qed.

Lemma isNestedFunction_true parents :
  isNestedFunction parents = true <->
  exists a, a ∈ parents /\ isFunctionType a = true.
Proof.
  unfold isFunctionType. induction parents as [|p up IH]; simpl.
  - split; [discriminate | intros (a & Ha & _); apply elem_of_nil in Ha as []].
  - destruct (_ || _) eqn:Hp.
    + split; [|reflexivity]. intros _. exists p. split; [left | exact Hp].
    + rewrite IH. split.
      * intros (a & Ha & Hfun). exists a. split; [right; exact Ha | exact Hfun].
      * intros (a & Ha & Hfun). apply elem_of_cons in Ha as [-> | Ha];
          [congruence | eauto].
Qed.

(** The analyzer: a candidate with a function, method or arrow function
    among its ancestors gives no record. *)
Lemma nested_candidate_yields_no_record node className parents a :
  a ∈ parents -> isFunctionType a = true ->
  extractFunctionInfo node className parents = None.
Proof.
  intros Ha Hfun.
  assert (Hnested : isNestedFunction parents = true)
    by (apply isNestedFunction_true; eauto).
  unfold extractFunctionInfo, extractFunctionInfo_try.
  destruct (selectFunction node) as [[[[functionNode fname] isArrow]|]|];
    simpl; try reflexivity.
  rewrite Hnested. reflexivity.
Qed.

(** The analyzer: every record of the output is built at a node of the
    walk none of whose ancestors is a function, method or arrow function. *)
Lemma traverse_records_from_visits node :
  forall parents st st',
    traverse node parents st = Ok st' ->
    exists new,
      functions st' = functions st ++ new
      /\ Forall (fun r => exists d ps className,
                   (d, ps) ∈ visits node parents
                   /\ extractFunctionInfo d className ps = Some r) new.
Proof.
  induction node as [node IH] using Node_children_ind. intros parents st st' Hrun.
  rewrite traverse_eq in Hrun.
  apply bind_Ok in Hrun as (st1 & Henter & Hrun).
  apply bind_Ok in Hrun as (st2 & Hloop & [= <-]).
  rewrite functions_leaveNode, visits_eq.
  assert (Hfirst : exists new,
             functions st1 = functions st ++ new
             /\ Forall (fun r => exists className,
                          extractFunctionInfo node className parents = Some r) new).
  { unfold enterNode in Henter.
    destruct (hasType "class_declaration" node).
    { apply bind_Ok in Henter as (c & _ & [= <-]).
      exists []. rewrite app_nil_r. split; [reflexivity | constructor]. }
    destruct (_ || _);
      [|injection Henter as <-; exists []; rewrite app_nil_r;
        split; [reflexivity | constructor]].
    destruct (extractFunctionInfo node (currentClass st) parents) as [func|] eqn:Hfunc;
      injection Henter as <-.
    - exists [func]. split; [reflexivity|]. repeat constructor. eauto.
    - exists []. rewrite app_nil_r. split; [reflexivity | constructor]. }
  destruct Hfirst as (new1 & Hst1 & Hnew1).
  assert (Hrest : exists new,
             functions st2 = functions st1 ++ new
             /\ Forall (fun r => exists d ps className,
                          (d, ps) ∈ visitsChildren (node :: parents) (children node)
                          /\ extractFunctionInfo d className ps = Some r) new).
  { clear Henter Hst1 Hnew1. revert st1 Hloop.
    induction IH as [|child rest Hchild _ IHrest]; intros s Hloop; simpl in *.
    - injection Hloop as <-. exists []. rewrite app_nil_r.
      split; [reflexivity | constructor].
    - apply bind_Ok in Hloop as (s1 & Hs1 & Hrest).
      destruct (Hchild _ _ _ Hs1) as (newc & Hsc & Hnewc).
      destruct (IHrest _ Hrest) as (newr & Hsr & Hnewr).
      exists (newc ++ newr). split; [rewrite Hsr, Hsc, app_assoc; reflexivity|].
      apply Forall_app. split.
      + eapply Forall_impl; [exact Hnewc|]. intros r (d & ps & cn & Hin & Hr).
        exists d, ps, cn. split; [apply elem_of_app; left; exact Hin | exact Hr].
      + eapply Forall_impl; [exact Hnewr|]. intros r (d & ps & cn & Hin & Hr).
        exists d, ps, cn. split; [apply elem_of_app; right; exact Hin | exact Hr]. }
  destruct Hrest as (new2 & Hst2 & Hnew2).
  exists (new1 ++ new2). split; [rewrite Hst2, Hst1, app_assoc; reflexivity|].
  apply Forall_app. split.
  - eapply Forall_impl; [exact Hnew1|]. intros r (cn & Hr).
    exists node, parents, cn. split; [left | exact Hr].
  - eapply Forall_impl; [exact Hnew2|]. intros r (d & ps & cn & Hin & Hr).
    exists d, ps, cn. split; [right; exact Hin | exact Hr].
Qed.

Lemma analyzeFunctions_excludes_nested rootNode records r :
  analyzeFunctions rootNode = Ok records ->
  r ∈ records ->
  exists d ps className,
    (d, ps) ∈ visits rootNode []
    /\ extractFunctionInfo d className ps = Some r
    /\ forall a, a ∈ ps -> isFunctionType a = false.
Proof.
  unfold analyzeFunctions. intros Hrun Hr.
  apply bind_Ok in Hrun as (st & Hrun & [= <-]).
  apply traverse_records_from_visits in Hrun as (new & Hnew & Hall).
  simpl in Hnew. rewrite Hnew in Hr. rewrite Forall_forall in Hall.
  destruct (Hall r Hr) as (d & ps & cn & Hin & Hext).
  exists d, ps, cn. split; [exact Hin|]. split; [exact Hext|].
  intros a Ha. destruct (isFunctionType a) eqn:Hfun; [|reflexivity].
  rewrite (nested_candidate_yields_no_record d cn ps a Ha Hfun) in Hext.
  discriminate.
Qed.

(** The extractor: under a raised flag nothing is reported. *)
Lemma traverseTree_inside_function node :
  forall parent currentClass acc,
    traverseTree node parent currentClass true acc = Ok acc.
Proof.
  induction node as [node IH] using Node_children_ind. intros parent currentClass acc.
  rewrite traverseTree_eq. cbv zeta. rewrite andb_false_r.
  generalize (if hasType "class_declaration" node || hasType "class" node
              then match childForFieldName node "name" with
                   | Some nameNode => Some (text nameNode)
                   | None => currentClass
                   end
              else currentClass) as cls.
  intros cls. induction IH as [|child rest Hchild _ IHrest]; simpl; [reflexivity|].
  rewrite Hchild. simpl. exact IHrest.
Qed.

Lemma traverseTreeChildren_inside_function parent currentClass cs acc :
  traverseTreeChildren parent currentClass true cs acc = Ok acc.
Proof.
  induction cs as [|child rest IH]; simpl; [reflexivity|].
  rewrite traverseTree_inside_function. simpl. exact IH.
Qed.

(** The extractor: the whole subtree of a function declaration, method or
    arrow function that is not itself under a raised flag adds at most
    the one record of that node. *)
Lemma traverseTree_reports_at_most_the_function node parent currentClass acc acc' :
  raisesFlag node = true ->
  traverseTree node parent currentClass false acc = Ok acc' ->
  acc' = acc
  \/ exists signature,
       acc' = push (FunctionDeclaration.mk (type node) signature
                      (startPosition node) (endPosition node)) acc.
Proof.
  intros Hkind. rewrite traverseTree_eq. cbv zeta. rewrite Hkind. simpl.
  intros Hrun. apply bind_Ok in Hrun as (named & _ & Hrun).
  rewrite traverseTreeChildren_inside_function in Hrun. injection Hrun as <-.
  destruct (fst named) as [functionName|]; [|auto].
  destruct (truthy functionName); eauto.
Qed.

(** C1. On [const f = function() { function inner() {} };] the extractor
    reports [inner], a function declared inside the body of the function
    expression bound to [f]: a node of type [function] does not raise the
    flag.  The analyzer, whose upward scan knows the type [function],
    reports [f] alone. *)
Theorem function_inside_function_expression_reported :
  getFunctionDeclarations nestedInFunctionExpression
  = Ok [ FunctionDeclaration.mk "function_declaration" "inner()"
           (mkPoint 0 23) (mkPoint 0 42) ]
  /\ analyzeFunctions nestedInFunctionExpression
     = Ok [ {| name := "f"; parameters := "()"; returnType := "void";
               class := None; call := None |} ].
Proof. split; vm_compute; reflexivity. Qed.

(** ** The analyzer's output as a whole *)

Lemma Forall2_elem_of_r {A B : Type} (R : A -> B -> Prop) l k y :
  Forall2 R l k -> y ∈ k -> exists x, x ∈ l /\ R x y.
Proof.
  induction 1 as [|x y' l k Hxy _ IH]; intros Hy.
  - apply elem_of_nil in Hy as [].
  - apply elem_of_cons in Hy as [-> | Hy].
    + exists x. split; [left | exact Hxy].
    + destruct (IH Hy) as (x' & Hx' & HR). exists x'. split; [right; exact Hx' | exact HR].
Qed.

Lemma sublist_elem_of_l {A : Type} (l k : list A) x :
  sublist l k -> x ∈ l -> x ∈ k.
Proof.
  induction 1 as [|y l k _ IH|y l k _ IH]; intros Hx.
  - exact Hx.
  - apply elem_of_cons in Hx as [-> | Hx]; [left | right; auto].
  - right. auto.
Qed.

Lemma classFrom_weaken node ps oc : classFrom ps oc -> classFrom (node :: ps) oc.
Proof.
  intros Hfrom c Hc. destruct (Hfrom c Hc) as (d & idn & Hd & Hrest).
  exists d, idn. split; [right; exact Hd | exact Hrest].
Qed.

Lemma classFrom_strengthen node ps oc :
  hasType "class_declaration" node = false ->
  classFrom (node :: ps) oc -> classFrom ps oc.
Proof.
  intros Hnode Hfrom c Hc. destruct (Hfrom c Hc) as (d & idn & Hd & Hclass & Hrest).
  apply elem_of_cons in Hd as [-> | Hd]; [congruence|].
  exists d, idn. auto.
Qed.

(** What the [switch] does to the state, in terms of [builtAt]. *)
Lemma enterNode_builtAt node parents st st1 :
  classFrom parents (currentClass st) ->
  enterNode node parents st = Ok st1 ->
  classFrom (node :: parents) (currentClass st1)
  /\ exists vs new,
       functions st1 = functions st ++ new
       /\ sublist vs [(node, parents)]
       /\ Forall2 builtAt vs new.
Proof.
  intros Hfrom Henter. unfold enterNode in Henter.
  destruct (hasType "class_declaration" node) eqn:Hclass.
  { unfold textOf in Henter.
    destruct (find (hasType "identifier") (children node)) as [idn|] eqn:Hid;
      simpl in Henter; [|discriminate].
    injection Henter as <-. simpl. split.
    - intros c [= <-]. exists node, idn. split; [left | auto].
    - exists [], []. rewrite app_nil_r.
      split; [reflexivity|]. split; [apply sublist_nil_l | constructor]. }
  fold (isCandidate node) in Henter.
  destruct (isCandidate node) eqn:Hcand.
  2:{ injection Henter as <-. split; [apply classFrom_weaken, Hfrom|].
      exists [], []. rewrite app_nil_r.
      split; [reflexivity|]. split; [apply sublist_nil_l | constructor]. }
  destruct (extractFunctionInfo node (currentClass st) parents) as [func|] eqn:Hfunc;
    injection Henter as <-; simpl.
  - split; [apply classFrom_weaken, Hfrom|].
    exists [(node, parents)], [func]. split; [reflexivity|]. split; [reflexivity|].
    constructor; [|constructor]. split; [exact Hcand|]. split.
    + intros a Ha. destruct (isFunctionType a) eqn:Hfun; [|reflexivity].
      simpl in Ha, Hfunc.
      rewrite (nested_candidate_yields_no_record node _ parents a Ha Hfun) in Hfunc.
      discriminate.
    + exists (currentClass st). split; [exact Hfrom | exact Hfunc].
  - split; [apply classFrom_weaken, Hfrom|].
    exists [], []. rewrite app_nil_r.
    split; [reflexivity|]. split; [apply sublist_nil_l | constructor].
Qed.

(** The walk appends, in the order of its steps, one record for some of
    the steps, and keeps the current class tied to a class declaration
    among the ancestors. *)
Lemma traverse_builtAt node :
  forall parents st st',
    classFrom parents (currentClass st) ->
    traverse node parents st = Ok st' ->
    classFrom parents (currentClass st')
    /\ exists vs new,
         functions st' = functions st ++ new
         /\ sublist vs (visits node parents)
         /\ Forall2 builtAt vs new.
Proof.
  induction node as [node IH] using Node_children_ind.
  intros parents st st' Hfrom Hrun.
  rewrite traverse_eq in Hrun.
  apply bind_Ok in Hrun as (st1 & Henter & Hrun).
  apply bind_Ok in Hrun as (st2 & Hloop & [= <-]).
  destruct (enterNode_builtAt _ _ _ _ Hfrom Henter)
    as (Hfrom1 & vs1 & new1 & Hst1 & Hsub1 & Hall1).
  assert (Hrest :
            classFrom (node :: parents) (currentClass st2)
            /\ exists vs new,
                 functions st2 = functions st1 ++ new
                 /\ sublist vs (visitsChildren (node :: parents) (children node))
                 /\ Forall2 builtAt vs new).
  { clear Henter Hst1 Hsub1 Hall1 Hfrom. revert st1 Hfrom1 Hloop.
    induction IH as [|child rest Hchild _ IHrest]; intros s Hs Hloop; simpl in *.
    - injection Hloop as <-. split; [exact Hs|]. exists [], [].
      rewrite app_nil_r. split; [reflexivity|]. split; constructor.
    - apply bind_Ok in Hloop as (s1 & Hs1 & Hrest).
      destruct (Hchild _ _ _ Hs Hs1) as (Hfromc & vsc & newc & Hsc & Hsubc & Hallc).
      destruct (IHrest _ Hfromc Hrest) as (Hfromr & vsr & newr & Hsr & Hsubr & Hallr).
      split; [exact Hfromr|]. exists (vsc ++ vsr), (newc ++ newr).
      split; [rewrite Hsr, Hsc, app_assoc; reflexivity|].
      split; [apply sublist_app; assumption | apply Forall2_app; assumption]. }
  destruct Hrest as (Hfrom2 & vs2 & new2 & Hst2 & Hsub2 & Hall2).
  split.
  - unfold leaveNode. destruct (hasType "class_declaration" node) eqn:Hclass.
    + intros c [=].
    + eapply classFrom_strengthen; eauto.
  - rewrite functions_leaveNode, visits_eq. exists (vs1 ++ vs2), (new1 ++ new2).
    split; [rewrite Hst2, Hst1, app_assoc; reflexivity|].
    split; [|apply Forall2_app; assumption].
    change ((node, parents) :: visitsChildren (node :: parents) (children node))
      with ([(node, parents)] ++ visitsChildren (node :: parents) (children node)).
    apply sublist_app; assumption.
Qed.

(** X1. The records of [analyzeFunctions] follow the order of the walk:
    they are built at steps of the pre-order walk, one record per step at
    most and in the order of the steps; each step is at a method
    definition, a function declaration or a lexical or variable
    declaration none of whose ancestors is a function, a method or an
    arrow function. *)
Theorem records_follow_walk_order rootNode records :
  analyzeFunctions rootNode = Ok records ->
  exists vs,
    sublist vs (visits rootNode [])
    /\ Forall2 (fun v r =>
                  isCandidate v.1 = true
                  /\ (forall a, a ∈ v.2 -> isFunctionType a = false)
                  /\ exists className,
                       extractFunctionInfo v.1 className v.2 = Some r)
               vs records.
Proof.
  unfold analyzeFunctions. intros Hrun.
  apply bind_Ok in Hrun as (st & Hrun & [= <-]).
  apply traverse_builtAt in Hrun as (_ & vs & new & Hnew & Hsub & Hall);
    [|intros c [=]].
  simpl in Hnew. rewrite Hnew. exists vs. split; [exact Hsub|].
  eapply Forall2_impl; [exact Hall|].
  intros v r (Hcand & Hfree & cn & _ & Hr). eauto.
Qed.

Lemma records_follow_walk_order_witness :
  exists vs,
    sublist vs (visits helloGreet [])
    /\ Forall2 (fun v r =>
                  isCandidate v.1 = true
                  /\ (forall a, a ∈ v.2 -> isFunctionType a = false)
                  /\ exists className,
                       extractFunctionInfo v.1 className v.2 = Some r)
               vs
               [ {| name := "hello"; parameters := "()";
                    returnType := "Promise<void>"; class := None; call := None |};
                 {| name := "greet"; parameters := "(name)";
                    returnType := "number"; class := None;
                    call := Some ["hello"] |} ].
Proof.
  apply (records_follow_walk_order helloGreet). vm_compute. reflexivity.
Defined.

(** X2. A record of [analyzeFunctions] carries a class only below a class
    declaration: its class field, when present, is the text of the first
    identifier child of a class declaration among the ancestors of the
    node the record is built at.  A function with no class declaration
    above it has no class field. *)
Theorem class_field_names_enclosing_class rootNode records r c :
  analyzeFunctions rootNode = Ok records ->
  r ∈ records ->
  class r = Some c ->
  exists node ps d idn,
    (node, ps) ∈ visits rootNode []
    /\ extractFunctionInfo node (Some c) ps = Some r
    /\ d ∈ ps
    /\ hasType "class_declaration" d = true
    /\ find (hasType "identifier") (children d) = Some idn
    /\ text idn = c.
Proof.
  unfold analyzeFunctions. intros Hrun Hr Hclass.
  apply bind_Ok in Hrun as (st & Hrun & [= <-]).
  apply traverse_builtAt in Hrun as (_ & vs & new & Hnew & Hsub & Hall);
    [|intros c' [=]].
  simpl in Hnew. rewrite Hnew in Hr.
  destruct (Forall2_elem_of_r _ _ _ _ Hall Hr) as ([node ps] & Hv & _ & _ & cn & Hfrom & Hext).
  simpl in *.
  assert (Hcn : cn = Some c).
  { pose proof Hext as Hshape.
    apply extractFunctionInfo_Some in Hshape
      as (fnode & isArrow & calls & _ & _ & _ & _ & _ & Hcls & _).
    rewrite Hclass in Hcls. destruct (truthyOpt cn); congruence. }
  subst cn. destruct (Hfrom c eq_refl) as (d & idn & Hd & Hrest).
  exists node, ps, d, idn. split; [eapply sublist_elem_of_l; eauto|]. auto.
Qed.

Lemma class_field_names_enclosing_class_witness :
  exists node ps d idn,
    (node, ps) ∈ visits siblingClasses []
    /\ extractFunctionInfo node (Some "B") ps
       = Some {| name := "b"; parameters := "()"; returnType := "void";
                 class := Some "B"; call := None |}
    /\ d ∈ ps
    /\ hasType "class_declaration" d = true
    /\ find (hasType "identifier") (children d) = Some idn
    /\ text idn = "B".
Proof.
  refine (class_field_names_enclosing_class siblingClasses _ _ "B" _ _ _).
  - vm_compute. reflexivity.
  - right. left.
  - reflexivity.
Defined.

(** A subtree without class declaration leaves the current class as it
    is, and every record built in it carries that class. *)
Lemma traverse_keeps_class node :
  forall parents st st',
    forallb (fun d => negb (hasType "class_declaration" d)) (preorder node) = true ->
    traverse node parents st = Ok st' ->
    currentClass st' = currentClass st
    /\ exists new,
         functions st' = functions st ++ new
         /\ Forall (fun r => class r = if truthyOpt (currentClass st)
                                       then currentClass st else None) new.
Proof.
  induction node as [node IH] using Node_children_ind.
  intros parents st st' Hplain Hrun.
  rewrite preorder_eq in Hplain. simpl in Hplain.
  apply andb_prop in Hplain as [Hnode Hbelow]. apply negb_true_iff in Hnode.
  rewrite traverse_eq in Hrun.
  apply bind_Ok in Hrun as (st1 & Henter & Hrun).
  apply bind_Ok in Hrun as (st2 & Hloop & [= <-]).
  unfold leaveNode. rewrite Hnode.
  assert (Hfirst : currentClass st1 = currentClass st
                   /\ exists new,
                        functions st1 = functions st ++ new
                        /\ Forall (fun r => class r = if truthyOpt (currentClass st)
                                                      then currentClass st else None) new).
  { unfold enterNode in Henter. rewrite Hnode in Henter.
    destruct (_ || _);
      [|injection Henter as <-; split; [reflexivity|]; exists [];
        rewrite app_nil_r; split; [reflexivity | constructor]].
    destruct (extractFunctionInfo node (currentClass st) parents) as [func|] eqn:Hfunc;
      injection Henter as <-; (split; [reflexivity|]).
    - exists [func]. split; [reflexivity|]. constructor; [|constructor].
      apply extractFunctionInfo_Some in Hfunc
        as (fnode & isArrow & calls & _ & _ & _ & _ & _ & Hcls & _).
      exact Hcls.
    - exists []. rewrite app_nil_r. split; [reflexivity | constructor]. }
  destruct Hfirst as (Hc1 & new1 & Hst1 & Hnew1).
  assert (Hrest : currentClass st2 = currentClass st1
                  /\ exists new,
                       functions st2 = functions st1 ++ new
                       /\ Forall (fun r => class r = if truthyOpt (currentClass st1)
                                                     then currentClass st1 else None) new).
  { clear Henter Hst1 Hnew1 Hc1. revert st1 Hloop.
    induction IH as [|child rest Hchild _ IHrest]; intros s Hloop; simpl in *.
    - injection Hloop as <-. split; [reflexivity|]. exists [].
      rewrite app_nil_r. split; [reflexivity | constructor].
    - rewrite forallb_app in Hbelow. apply andb_prop in Hbelow as [Hc Hr].
      apply bind_Ok in Hloop as (s1 & Hs1 & Hrest).
      destruct (Hchild _ _ _ Hc Hs1) as (Hcc & newc & Hsc & Hnewc).
      destruct (IHrest Hr _ Hrest) as (Hcr & newr & Hsr & Hnewr).
      split; [congruence|]. exists (newc ++ newr).
      split; [rewrite Hsr, Hsc, app_assoc; reflexivity|].
      apply Forall_app. split; [exact Hnewc|]. rewrite Hcc in Hnewr. exact Hnewr. }
  destruct Hrest as (Hc2 & new2 & Hst2 & Hnew2).
  split; [congruence|]. exists (new1 ++ new2).
  split; [rewrite Hst2, Hst1, app_assoc; reflexivity|].
  apply Forall_app. split; [exact Hnew1|]. rewrite Hc1 in Hnew2. exact Hnew2.
Qed.

Lemma traverseChildren_keeps_class chain cs :
  forall s s',
    forallb (fun d => negb (hasType "class_declaration" d)) (preorderChildren cs) = true ->
    traverseChildren chain cs s = Ok s' ->
    currentClass s' = currentClass s
    /\ exists new,
         functions s' = functions s ++ new
         /\ Forall (fun r => class r = if truthyOpt (currentClass s)
                                       then currentClass s else None) new.
Proof.
  induction cs as [|child rest IH]; intros s s' Hplain Hloop; simpl in *.
  - injection Hloop as <-. split; [reflexivity|]. exists [].
    rewrite app_nil_r. split; [reflexivity | constructor].
  - rewrite forallb_app in Hplain. apply andb_prop in Hplain as [Hc Hr].
    apply bind_Ok in Hloop as (s1 & Hs1 & Hrest).
    destruct (traverse_keeps_class _ _ _ _ Hc Hs1) as (Hcc & newc & Hsc & Hnewc).
    destruct (IH _ _ Hr Hrest) as (Hcr & newr & Hsr & Hnewr).
    split; [congruence|]. exists (newc ++ newr).
    split; [rewrite Hsr, Hsc, app_assoc; reflexivity|].
    apply Forall_app. split; [exact Hnewc|]. rewrite Hcc in Hnewr. exact Hnewr.
Qed.

(** X3. The records built below a class declaration that holds no other
    class declaration all carry the name of that class, the text of its
    first identifier child, and the current class is absent afterwards. *)
Theorem methods_of_plain_class_carry_its_name node idn parents st st' :
  hasType "class_declaration" node = true ->
  find (hasType "identifier") (children node) = Some idn ->
  text idn <> EmptyString ->
  forallb (fun d => negb (hasType "class_declaration" d))
          (preorderChildren (children node)) = true ->
  traverse node parents st = Ok st' ->
  currentClass st' = None
  /\ exists new,
       functions st' = functions st ++ new
       /\ Forall (fun r => class r = Some (text idn)) new.
Proof.
  intros Hclass Hid Htext Hplain Hrun.
  rewrite traverse_eq in Hrun.
  apply bind_Ok in Hrun as (st1 & Henter & Hrun).
  apply bind_Ok in Hrun as (st2 & Hloop & [= <-]).
  unfold leaveNode. rewrite Hclass. split; [reflexivity|]. simpl.
  unfold enterNode in Henter. rewrite Hclass, Hid in Henter. simpl in Henter.
  injection Henter as <-.
  destruct (traverseChildren_keeps_class _ _ _ _ Hplain Hloop)
    as (_ & new & Hnew & Hall).
  simpl in Hnew, Hall. exists new. split; [exact Hnew|].
  unfold truthy in Hall. apply String.eqb_neq in Htext. rewrite Htext in Hall.
  exact Hall.
Qed.

(** [class A { a() {} }] *)
Lemma methods_of_plain_class_witness :
  traverse classA [] (mkWalkState [] None)
  = Ok (mkWalkState
          [ {| name := "a"; parameters := "()"; returnType := "void";
               class := Some "A"; call := None |} ] None)
  /\ exists new,
       [ {| name := "a"; parameters := "()"; returnType := "void";
            class := Some "A"; call := None |} ] = [] ++ new
       /\ Forall (fun r => class r = Some "A") new.
Proof.
  assert (Hrun : traverse classA [] (mkWalkState [] None)
                 = Ok (mkWalkState
                         [ {| name := "a"; parameters := "()"; returnType := "void";
                              class := Some "A"; call := None |} ] None))
    by (vm_compute; reflexivity).
  split; [exact Hrun|].
  refine (proj2 (methods_of_plain_class_carry_its_name
                   classA (identifier "name" "A") [] (mkWalkState [] None) _
                   _ _ _ _ Hrun)).
  - reflexivity.
  - reflexivity.
  - discriminate.
  - reflexivity.
Defined.

Lemma determineReturnType_label node isAsync isArrow :
  determineReturnType node isAsync isArrow ∈ returnTypeLabels.
Proof.
  unfold determineReturnType, returnTypeLabels.
  destruct isAsync; [left|].
  destruct isArrow; simpl.
  - destruct (arrowBody node) as [body|]; [|right; left].
    destruct (hasType "expression" body); [right; left|].
    destruct (findReturnStatement node) as [r|]; [|do 4 right; left].
    destruct (find _ (children r)) as [e|]; [|do 4 right; left].
    destruct (hasType "number" e); [do 2 right; left|].
    destruct (hasType "string" e); [do 3 right; left | do 4 right; left].
  - destruct (findReturnStatement node) as [r|]; [|do 4 right; left].
    destruct (find _ (children r)) as [e|]; [|do 4 right; left].
    destruct (hasType "number" e); [do 2 right; left|].
    destruct (hasType "string" e); [do 3 right; left | do 4 right; left].
Qed.

(** X4. The shape of every record of [analyzeFunctions]: the return type
    is one of the five labels, a class field is never the empty string,
    and a call field is never the empty list. *)
Theorem records_are_well_shaped rootNode records r :
  analyzeFunctions rootNode = Ok records ->
  r ∈ records ->
  returnType r ∈ returnTypeLabels
  /\ class r <> Some EmptyString
  /\ call r <> Some [].
Proof.
  intros Hrun Hr.
  pose (P := fun r : FunctionInfo =>
               returnType r ∈ returnTypeLabels
               /\ class r <> Some EmptyString
               /\ call r <> Some []).
  assert (Hall : Forall P records).
  { eapply analyzeFunctions_Forall; [|exact Hrun].
    intros d cn ps r' _ Hr'.
    apply extractFunctionInfo_Some in Hr'
      as (fnode & isArrow & calls & _ & _ & _ & Hret & _ & Hcls & Hcall).
    split; [rewrite Hret; apply determineReturnType_label|]. split.
    - rewrite Hcls. destruct cn as [c|]; simpl; [|discriminate].
      unfold truthy. destruct (String.eqb c EmptyString) eqn:Hc; simpl; [discriminate|].
      apply String.eqb_neq in Hc. congruence.
    - rewrite Hcall. destruct calls; discriminate. }
  rewrite Forall_forall in Hall. exact (Hall r Hr).
Qed.

Lemma records_are_well_shaped_witness :
  "number" ∈ returnTypeLabels
  /\ (None : option string) <> Some EmptyString
  /\ Some ["hello"] <> Some [].
Proof.
  refine (records_are_well_shaped helloGreet _
            {| name := "greet"; parameters := "(name)"; returnType := "number";
               class := None; call := Some ["hello"] |} _ _).
  - vm_compute. reflexivity.
  - right. left.
Defined.

(** ** The search for a return statement *)

Lemma head_filter_Some {A : Type} (P : A -> Prop) `{forall x, Decision (P x)}
    (l : list A) x :
  head (filter P l) = Some x -> x ∈ l /\ P x.
Proof.
  intros Hhead.
  assert (Hin : x ∈ filter P l).
  { destruct (filter P l) as [|y k]; [discriminate|].
    injection Hhead as ->. left. }
  apply list_elem_of_filter in Hin. tauto.
Qed.

Lemma head_filter_None {A : Type} (P : A -> Prop) `{forall x, Decision (P x)}
    (l : list A) :
  head (filter P l) = None <-> forall x, x ∈ l -> ~ P x.
Proof.
  split.
  - intros Hhead x Hx HP.
    assert (Hin : x ∈ filter P l) by (apply list_elem_of_filter; auto).
    destruct (filter P l); [apply elem_of_nil in Hin as [] | discriminate].
  - intros Hnone. destruct (filter P l) as [|y k] eqn:Hf; [reflexivity|].
    assert (Hin : y ∈ filter P l) by (rewrite Hf; left).
    apply list_elem_of_filter in Hin as [HP Hy]. destruct (Hnone y Hy HP).
Qed.

(** X5. [findReturnStatement] answers with a return statement of the
    subtree it is given, and with [null] exactly when the subtree, the
    bodies of inner functions included, holds no return statement. *)
Theorem findReturnStatement_finds_in_subtree node :
  (forall found,
      findReturnStatement node = Some found ->
      found ∈ preorder node /\ hasType "return_statement" found = true)
  /\ (findReturnStatement node = None <->
      forall d, d ∈ preorder node -> hasType "return_statement" d = false).
Proof.
  rewrite findReturnStatement_first. unfold firstReturnStatement. split.
  - intros found Hfound. apply head_filter_Some in Hfound. exact Hfound.
  - rewrite head_filter_None. split; intros Hnone d Hd.
    + apply not_true_is_false. exact (Hnone d Hd).
    + rewrite (Hnone d Hd). discriminate.
Qed.

Lemma findReturnStatement_finds_witness :
  (exists found,
      findReturnStatement asyncReturnsFive = Some found
      /\ found ∈ preorder asyncReturnsFive
      /\ hasType "return_statement" found = true)
  /\ findReturnStatement (identifier "name" "x") = None.
Proof.
  split.
  - exists (N "return_statement" "return 5;" [T "return"; N "number" "5" []; T ";"]).
    split; [reflexivity|].
    exact (proj1 (findReturnStatement_finds_in_subtree asyncReturnsFive) _ eq_refl).
  - apply (proj2 (findReturnStatement_finds_in_subtree (identifier "name" "x"))).
    intros d Hd. apply list_elem_of_In in Hd. simpl in Hd.
    destruct Hd as [<- | []]. reflexivity.
Defined.

(** ** When the call walker throws, and where its names come from *)

Lemma calleeName_outcome instances n :
  hasType "call_expression" n = true ->
  if callWellFormed n
  then exists functionName, calleeName instances n = Ok functionName
  else calleeName instances n = Throw.
Proof.
  intros Hcall. unfold callWellFormed, calleeName. rewrite Hcall.
  destruct (children n !! 0%nat) as [callee|]; simpl; [|reflexivity].
  destruct (hasType "member_expression" callee); [|eauto].
  destruct (children callee !! 0%nat) as [o|]; simpl; [|reflexivity].
  destruct (children callee !! 2%nat) as [p|]; simpl; [|reflexivity].
  destruct (negb _); [|eauto]. destruct (instances !! text o); eauto.
Qed.

Lemma visitForCalls_outcome add n st :
  if callWellFormed n
  then exists st', visitForCalls add n st = Ok st'
  else visitForCalls add n st = Throw.
Proof.
  unfold visitForCalls.
  destruct (hasType "call_expression" n) eqn:Hcall.
  - rewrite (hasType_other _ "variable_declarator" n Hcall) by discriminate.
    pose proof (calleeName_outcome (classInstances st) n Hcall) as Hname.
    destruct (callWellFormed n).
    + destruct Hname as (f & ->). simpl. destruct (negb _); eauto.
    + rewrite Hname. reflexivity.
  - assert (Hwf : callWellFormed n = true)
      by (unfold callWellFormed; rewrite Hcall; reflexivity).
    rewrite Hwf. destruct (hasType "variable_declarator" n); [|eauto].
    destruct (find _ (children n)) as [id|]; [|eauto].
    destruct (find (hasType "new_expression") _) as [init|]; [|eauto].
    destruct (find _ (children init)) as [classNode|]; [|eauto].
    destruct (truthy _); eauto.
Qed.

Lemma visitInOrder_outcome add nodes :
  forall st,
    if forallb callWellFormed nodes
    then exists st', visitInOrder add nodes st = Ok st'
    else visitInOrder add nodes st = Throw.
Proof.
  induction nodes as [|n rest IH]; intros st; simpl; [eauto|].
  pose proof (visitForCalls_outcome add n st) as Hvisit.
  destruct (callWellFormed n); simpl.
  - destruct Hvisit as (st1 & ->). simpl. apply IH.
  - rewrite Hvisit. reflexivity.
Qed.

(** X6. [extractCalledFunctions] throws exactly when the subtree holds a
    call expression without the children it reads (no callee, or a member
    access without a first or third child); otherwise it returns a list.
    A candidate whose function node holds such a call expression gives no
    record. *)
Theorem extractCalledFunctions_throws_on_malformed_call :
  (forall node className,
      forallb callWellFormed (preorder node) = true ->
      exists calls, extractCalledFunctions node className = Ok calls)
  /\ (forall node className,
        forallb callWellFormed (preorder node) = false ->
        extractCalledFunctions node className = Throw)
  /\ (forall node className parents functionNode fname isArrow,
        selectFunction node = Ok (Some (functionNode, fname, isArrow)) ->
        forallb callWellFormed (preorder functionNode) = false ->
        extractFunctionInfo node className parents = None).
Proof.
  assert (Hout : forall node className,
             if forallb callWellFormed (preorder node)
             then exists calls, extractCalledFunctions node className = Ok calls
             else extractCalledFunctions node className = Throw).
  { intros node className. unfold extractCalledFunctions, traverseForCalls.
    rewrite traverseForCallsWith_preorder.
    pose proof (visitInOrder_outcome Set_add (preorder node) (mkCallState [] ∅)) as H.
    destruct (forallb callWellFormed (preorder node)).
    - destruct H as (st' & ->). simpl. eauto.
    - rewrite H. reflexivity. }
  split; [|split].
  - intros node className Hwf. specialize (Hout node className).
    rewrite Hwf in Hout. exact Hout.
  - intros node className Hwf. specialize (Hout node className).
    rewrite Hwf in Hout. exact Hout.
  - intros node className parents functionNode fname isArrow Hsel Hwf.
    specialize (Hout functionNode className). rewrite Hwf in Hout.
    unfold extractFunctionInfo, extractFunctionInfo_try. rewrite Hsel. simpl.
    destruct (isNestedFunction parents); [reflexivity|].
    destruct (textOf _); simpl; [|reflexivity].
    rewrite Hout. reflexivity.
Qed.

Lemma extractCalledFunctions_throws_witness :
  (exists calls, extractCalledFunctions calledTwice None = Ok calls)
  /\ extractCalledFunctions functionWithBrokenCall None = Throw
  /\ extractFunctionInfo functionWithBrokenCall None [] = None.
Proof.
  destruct extractCalledFunctions_throws_on_malformed_call as (Hok & Hthrow & Hdrop).
  split; [|split].
  - apply Hok. reflexivity.
  - apply Hthrow. reflexivity.
  - apply (Hdrop functionWithBrokenCall None [] functionWithBrokenCall "broken" false);
      reflexivity.
Defined.

(** A visit that stores a name is the visit of a call expression. *)
Lemma visitForCalls_adds add n st st' :
  visitForCalls add n st = Ok st' ->
  calledFunctions st' = calledFunctions st
  \/ (hasType "call_expression" n = true
      /\ exists functionName,
           calleeName (classInstances st) n = Ok functionName
           /\ functionName <> "console.log"
           /\ calledFunctions st' = add functionName (calledFunctions st)).
Proof.
  intros Hvisit. unfold visitForCalls in Hvisit.
  destruct (hasType "variable_declarator" n).
  - left. destruct (find _ (children n)) as [id|]; [|congruence].
    destruct (find (hasType "new_expression") _) as [init|]; [|congruence].
    destruct (find _ (children init)) as [classNode|]; [|congruence].
    destruct (truthy _); injection Hvisit as <-; reflexivity.
  - destruct (hasType "call_expression" n); [|left; congruence].
    apply bind_Ok in Hvisit as (functionName & Hname & Hadd).
    destruct (String.eqb functionName "console.log") eqn:Hlog; simpl in Hadd;
      injection Hadd as <-; [left; reflexivity|].
    right. split; [reflexivity|]. exists functionName.
    apply String.eqb_neq in Hlog. auto.
Qed.

(** ** The extractor's output as a whole *)

Lemma truthy_nonempty s : truthy s = true -> s <> EmptyString.
Proof.
  unfold truthy. intros Ht. apply negb_true_iff, String.eqb_neq in Ht. exact Ht.
Qed.

Lemma traverseTree_reportedAt node :
  forall ps insideFunction acc acc',
    (insideFunction = false -> forall a, a ∈ ps -> raisesFlag a = false) ->
    traverseTree node (head ps) (nearestClass ps) insideFunction acc = Ok acc' ->
    exists vs new,
      acc' = acc ++ new
      /\ sublist vs (visits node ps)
      /\ Forall2 reportedAt vs new.
Proof.
  induction node as [node IH] using Node_children_ind.
  intros ps inside acc acc' Htop Hrun.
  destruct inside.
  { rewrite traverseTree_inside_function in Hrun. injection Hrun as <-.
    exists [], []. rewrite app_nil_r.
    split; [reflexivity|]. split; [apply sublist_nil_l | constructor]. }
  specialize (Htop eq_refl).
  rewrite traverseTree_eq in Hrun. cbv zeta in Hrun. rewrite visits_eq.
  change (if hasType "class_declaration" node || hasType "class" node
          then match childForFieldName node "name" with
               | Some nameNode => Some (text nameNode)
               | None => nearestClass ps
               end
          else nearestClass ps)
    with (nearestClass (node :: ps)) in Hrun.
  destruct (raisesFlag node) eqn:Hflag; simpl in Hrun.
  - apply bind_Ok in Hrun as (named & Hnamed & Hrun).
    rewrite traverseTreeChildren_inside_function in Hrun. injection Hrun as <-.
    destruct named as [[functionName|] signature]; simpl;
      [|exists [], []; rewrite app_nil_r; split; [reflexivity|];
        split; [apply sublist_nil_l | constructor]].
    destruct (truthy functionName) eqn:Hname;
      [|exists [], []; rewrite app_nil_r; split; [reflexivity|];
        split; [apply sublist_nil_l | constructor]].
    exists [(node, ps)], [FunctionDeclaration.mk (type node)
                            (if truthy signature then signature else functionName)
                            (startPosition node) (endPosition node)].
    split; [reflexivity|].
    split; [apply sublist_skip, sublist_nil_l|].
    constructor; [|constructor].
    split; [exact Hflag|]. split; [exact Htop|].
    split; [reflexivity|]. split; [reflexivity|]. split; [reflexivity|]. split.
    + simpl. destruct (truthy signature) eqn:Hsig; apply truthy_nonempty; assumption.
    + exists functionName, signature. split; [exact Hnamed | reflexivity].
  - assert (Hchain : forall a, a ∈ node :: ps -> raisesFlag a = false).
    { intros a Ha. apply elem_of_cons in Ha as [-> | Ha]; auto. }
    assert (Hrest : exists vs new,
               acc' = acc ++ new
               /\ sublist vs (visitsChildren (node :: ps) (children node))
               /\ Forall2 reportedAt vs new).
    { clear Htop Hflag. revert acc Hrun.
      induction IH as [|child rest Hchild _ IHrest]; intros acc Hrun; simpl in Hrun |- *.
      - injection Hrun as <-. exists [], []. rewrite app_nil_r.
        split; [reflexivity|]. split; constructor.
      - apply bind_Ok in Hrun as (acc1 & Hacc1 & Hrest).
        destruct (Hchild (node :: ps) false acc acc1 (fun _ => Hchain) Hacc1)
          as (vsc & newc & -> & Hsubc & Hallc).
        destruct (IHrest _ Hrest) as (vsr & newr & -> & Hsubr & Hallr).
        exists (vsc ++ vsr), (newc ++ newr). rewrite app_assoc.
        split; [reflexivity|].
        split; [apply sublist_app; assumption | apply Forall2_app; assumption]. }
    destruct Hrest as (vs & new & -> & Hsub & Hall).
    exists vs, new. split; [reflexivity|]. split; [|exact Hall].
    apply sublist_cons. exact Hsub.
Qed.

(** X8. The records of [getFunctionDeclarations] follow the order of the
    walk: they are reported at steps of the pre-order walk, one per step at
    most and in the order of the steps; each step is at a function
    declaration, a method definition or an arrow function that lies below
    no such node.  The record carries the type and the span of that node
    and a name that is not empty: the signature put together with the
    class of the nearest class above that has a name. *)
Theorem extractor_records_follow_walk_order rootNode records :
  getFunctionDeclarations rootNode = Ok records ->
  exists vs,
    sublist vs (visits rootNode [])
    /\ Forall2 reportedAt vs records.
Proof.
  unfold getFunctionDeclarations. intros Hrun.
  destruct (traverseTree_reportedAt rootNode [] false [] records)
    as (vs & new & Hnew & Hsub & Hall).
  - intros _ a Ha. apply elem_of_nil in Ha as [].
  - exact Hrun.
  - simpl in Hnew. subst new. eauto.
Qed.

Lemma extractor_records_follow_walk_order_witness :
  exists vs,
    sublist vs (visits classInsideMethod [])
    /\ Forall2 reportedAt vs
         [ FunctionDeclaration.mk "method_definition" "A.m1()" origin origin;
           FunctionDeclaration.mk "method_definition" "A.m2()" origin origin ].
Proof.
  apply (extractor_records_follow_walk_order classInsideMethod).
  vm_compute. reflexivity.
Defined.






(** ** The calls of a function, visit by visit *)

Lemma extractCalledFunctions_preorder node className :
  extractCalledFunctions node className =
  let* st := stateBefore (preorder node) in Ok (calledFunctions st).
Proof.
  unfold extractCalledFunctions, traverseForCalls, stateBefore.
  rewrite traverseForCallsWith_preorder. reflexivity.
Qed.

Lemma visitInOrder_grows nodes :
  forall st st' x,
    visitInOrder Set_add nodes st = Ok st' ->
    x ∈ calledFunctions st -> x ∈ calledFunctions st'.
Proof.
  induction nodes as [|n rest IH]; intros st st' x Hrun Hx; simpl in Hrun.
  - congruence.
  - apply bind_Ok in Hrun as (st1 & Hvisit & Hrest).
    apply (IH _ _ _ Hrest).
    apply visitForCalls_called in Hvisit as [-> | (f & _ & _ & ->)]; [exact Hx|].
    apply elem_of_Set_add. auto.
Qed.

(** The walk over a list of nodes comes to each of them with the state
    that the nodes before it have made, and a name stored there stays. *)
Lemma visitInOrder_reaches_call before d after st0 st' :
  visitInOrder Set_add (before ++ d :: after) st0 = Ok st' ->
  hasType "call_expression" d = true ->
  exists st functionName,
    visitInOrder Set_add before st0 = Ok st
    /\ calleeName (classInstances st) d = Ok functionName
    /\ (functionName <> "console.log" -> functionName ∈ calledFunctions st').
Proof.
  intros Hrun Hcall. rewrite visitInOrder_app in Hrun.
  apply bind_Ok in Hrun as (st & Hbefore & Hrun). simpl in Hrun.
  apply bind_Ok in Hrun as (st1 & Hvisit & Hafter).
  unfold visitForCalls in Hvisit.
  rewrite (hasType_other _ "variable_declarator" d Hcall) in Hvisit by discriminate.
  rewrite Hcall in Hvisit.
  apply bind_Ok in Hvisit as (functionName & Hname & Hadd).
  exists st, functionName. split; [exact Hbefore|]. split; [exact Hname|].
  intros Hlog. apply String.eqb_neq in Hlog. rewrite Hlog in Hadd.
  injection Hadd as <-.
  apply (visitInOrder_grows _ _ _ _ Hafter). apply elem_of_Set_add. auto.
Qed.





Lemma extractCalledFunctions_reaches_call node className calls before d after :
  extractCalledFunctions node className = Ok calls ->
  preorder node = before ++ d :: after ->
  hasType "call_expression" d = true ->
  exists st functionName,
    stateBefore before = Ok st
    /\ calleeName (classInstances st) d = Ok functionName
    /\ (functionName <> "console.log" -> functionName ∈ calls).
Proof.
  rewrite extractCalledFunctions_preorder. intros Hrun Hpre Hcall.
  apply bind_Ok in Hrun as (st' & Hrun & [= <-]). unfold stateBefore in *.
  rewrite Hpre in Hrun. exact (visitInOrder_reaches_call _ _ _ _ _ Hrun Hcall).
Qed.

(** The records of the output, each with the step of the walk that built
    it. *)
Lemma analyzeFunctions_builtAt rootNode records :
  analyzeFunctions rootNode = Ok records ->
  exists vs, sublist vs (visits rootNode []) /\ Forall2 builtAt vs records.
Proof.
  unfold analyzeFunctions. intros Hrun.
  apply bind_Ok in Hrun as (st & Hrun & [= <-]).
  apply traverse_builtAt in Hrun as (_ & vs & new & Hnew & Hsub & Hall);
    [|intros c [=]].
  simpl in Hnew. rewrite Hnew. eauto.
Qed.

Lemma isCandidate_not_class node :
  isCandidate node = true -> hasType "class_declaration" node = false.
Proof.
  unfold isCandidate. intros Hcand.
  destruct (hasType "class_declaration" node) eqn:Hclass; [|reflexivity].
  rewrite (hasType_other _ "method_definition" node Hclass) in Hcand by discriminate.
  rewrite (hasType_other _ "function_declaration" node Hclass) in Hcand by discriminate.
  rewrite (hasType_other _ "lexical_declaration" node Hclass) in Hcand by discriminate.
  rewrite (hasType_other _ "variable_declaration" node Hclass) in Hcand by discriminate.
  discriminate.
Qed.

Lemma traverse_functions_grow node parents st st' r :
  traverse node parents st = Ok st' -> r ∈ functions st -> r ∈ functions st'.
Proof.
  intros Hrun Hr. apply traverse_records_from_visits in Hrun as (new & -> & _).
  apply elem_of_app. auto.
Qed.

Lemma traverseChildren_functions_grow chain cs :
  forall s s' r,
    traverseChildren chain cs s = Ok s' -> r ∈ functions s -> r ∈ functions s'.
Proof.
  induction cs as [|child rest IH]; intros s s' r Hloop Hr; simpl in Hloop.
  - congruence.
  - apply bind_Ok in Hloop as (s1 & Hs1 & Hrest).
    eauto using traverse_functions_grow.
Qed.

(** No candidate of the walk is passed over: at each of them
    [extractFunctionInfo] is called with the class of the moment, and
    the record it gives, if any, is in the output. *)
Lemma traverse_tries_every_candidate node :
  forall parents st st' d ps,
    traverse node parents st = Ok st' ->
    (d, ps) ∈ visits node parents ->
    isCandidate d = true ->
    exists className,
      match extractFunctionInfo d className ps with
      | Some r => r ∈ functions st'
      | None => True
      end.
Proof.
  induction node as [node IH] using Node_children_ind.
  intros parents st st' d ps Hrun Hd Hcand.
  rewrite traverse_eq in Hrun.
  apply bind_Ok in Hrun as (st1 & Henter & Hrun).
  apply bind_Ok in Hrun as (st2 & Hloop & [= <-]).
  rewrite visits_eq in Hd. apply elem_of_cons in Hd as [[= -> ->] | Hd].
  - exists (currentClass st). unfold enterNode in Henter.
    rewrite (isCandidate_not_class _ Hcand) in Henter.
    fold (isCandidate node) in Henter. rewrite Hcand in Henter.
    destruct (extractFunctionInfo node (currentClass st) parents) as [func|];
      [|exact I].
    injection Henter as <-. rewrite functions_leaveNode.
    apply (traverseChildren_functions_grow _ _ _ _ _ Hloop).
    simpl. unfold push. apply elem_of_app. right. left.
  - clear Henter. revert st1 Hloop Hd.
    induction IH as [|child rest Hchild _ IHrest]; intros s Hloop Hd; simpl in *.
    + apply elem_of_nil in Hd as [].
    + apply bind_Ok in Hloop as (s1 & Hs1 & Hrest).
      apply elem_of_app in Hd as [Hd | Hd]; [|eauto].
      destruct (Hchild _ _ _ _ _ Hs1 Hd Hcand) as (cn & Hcn). exists cn.
      destruct (extractFunctionInfo d cn ps) as [r|]; [|exact I].
      rewrite functions_leaveNode.
      apply (traverseChildren_functions_grow _ _ _ _ _ Hrest). exact Hcn.
Qed.

(** C9. The call walker goes through the whole subtree of the function
    node of a record, bodies of inner functions included.  Every record
    of the output is built at a step of the walk for a function node such
    that each call expression anywhere in the pre-order listing of that
    function node is resolved, with the alias table the walk has made by
    then, to a name which is in the calls of that record unless it reads
    "console.log".  And every candidate of the walk that is below no
    function, has its parameter list and holds only call expressions
    with the children that are read, has such a record in the output: a
    call expression inside an inner function is in the calls of the
    record of the enclosing top-level function. *)
Theorem nested_calls_attributed_to_enclosing_function rootNode records :
  analyzeFunctions rootNode = Ok records ->
  (exists vs,
      sublist vs (visits rootNode [])
      /\ Forall2 callsAttributed vs records)
  /\ (forall node ps functionNode fname isArrow before d after,
        (node, ps) ∈ visits rootNode [] ->
        isCandidate node = true ->
        (forall a, a ∈ ps -> isFunctionType a = false) ->
        selectFunction node = Ok (Some (functionNode, fname, isArrow)) ->
        hasChild "formal_parameters" functionNode = true ->
        forallb callWellFormed (preorder functionNode) = true ->
        preorder functionNode = before ++ d :: after ->
        hasType "call_expression" d = true ->
        exists st functionName,
          stateBefore before = Ok st
          /\ calleeName (classInstances st) d = Ok functionName
          /\ (functionName <> "console.log" ->
              exists r calls,
                r ∈ records
                /\ name r = fname
                /\ call r = Some calls
                /\ functionName ∈ calls)).
Proof.
  intros Hrun. split.
  - apply analyzeFunctions_builtAt in Hrun as (vs & Hsub & Hall).
    exists vs. split; [exact Hsub|].
    eapply Forall2_impl; [exact Hall|].
    intros v r (_ & _ & cn & _ & Hr).
    pose proof Hr as Hshape.
    apply extractFunctionInfo_Some in Hshape
      as (fnode & isArrow & cf & Hsel & _ & _ & _ & Hext & _ & Hcall).
    exists cn, fnode, isArrow. split; [exact Hr|]. split; [exact Hsel|].
    intros before d after Hpre Hd.
    destruct (extractCalledFunctions_reaches_call _ _ _ _ _ _ Hext Hpre Hd)
      as (st & f & Hst & Hname & Hin).
    exists st, f. split; [exact Hst|]. split; [exact Hname|].
    intros Hlog. specialize (Hin Hlog). exists cf. split; [|exact Hin].
    rewrite Hcall. destruct cf; [apply elem_of_nil in Hin as [] | reflexivity].
  - intros node ps fnode fname isArrow before d after
      Hv Hcand Htop Hsel Hparams Hwf Hpre Hd.
    unfold analyzeFunctions in Hrun.
    apply bind_Ok in Hrun as (st' & Hrun & [= <-]).
    destruct (traverse_tries_every_candidate _ _ _ _ _ _ Hrun Hv Hcand)
      as (cn & Hcn).
    assert (Hnested : isNestedFunction ps = false).
    { destruct (isNestedFunction ps) eqn:Hn; [|reflexivity].
      apply isNestedFunction_true in Hn as (a & Ha & Hfun).
      rewrite (Htop a Ha) in Hfun. discriminate. }
    assert (Hext : exists cf, extractCalledFunctions fnode cn = Ok cf).
    { rewrite extractCalledFunctions_preorder. unfold stateBefore.
      pose proof (visitInOrder_outcome Set_add (preorder fnode) (mkCallState [] ∅))
        as Hout.
      rewrite Hwf in Hout. destruct Hout as (s & ->). simpl. eauto. }
    destruct Hext as (cf & Hext).
    apply existsb_find in Hparams as (p & Hp).
    assert (Hr : extractFunctionInfo node cn ps
                 = Some {| name := fname;
                           parameters := text p;
                           returnType :=
                             determineReturnType fnode
                               (existsb (hasType "async") (children fnode)) isArrow;
                           class := if truthyOpt cn then cn else None;
                           call := match cf with
                                   | [] => None
                                   | _ :: _ => Some cf
                                   end |}).
    { unfold extractFunctionInfo, extractFunctionInfo_try.
      rewrite Hsel. simpl. rewrite Hnested, Hp. simpl. rewrite Hext. reflexivity. }
    rewrite Hr in Hcn.
    destruct (extractCalledFunctions_reaches_call _ _ _ _ _ _ Hext Hpre Hd)
      as (st & f & Hst & Hname & Hin).
    exists st, f. split; [exact Hst|]. split; [exact Hname|].
    intros Hlog. specialize (Hin Hlog).
    eexists _, cf. split; [exact Hcn|]. split; [reflexivity|]. split; [|exact Hin].
    simpl. destruct cf; [apply elem_of_nil in Hin as [] | reflexivity].
Qed.

(** [function outer(){ const inner = () => { deep(); }; }]: the one record
    is that of [outer], and the call of [deep], the twenty-second node of
    the walk of [outer], inside [inner], is in its calls. *)
Lemma nested_calls_attributed_witness :
  analyzeFunctions callInsideInnerProgram
  = Ok [ {| name := "outer"; parameters := "()"; returnType := "void";
            class := None; call := Some ["deep"] |} ]
  /\ (exists vs,
        sublist vs (visits callInsideInnerProgram [])
        /\ Forall2 callsAttributed vs
             [ {| name := "outer"; parameters := "()"; returnType := "void";
                  class := None; call := Some ["deep"] |} ])
  /\ exists st functionName,
       stateBefore (take 21 (preorder callInsideInner)) = Ok st
       /\ calleeName (classInstances st) deepCall = Ok functionName
       /\ (functionName <> "console.log" ->
           exists r calls,
             r ∈ [ {| name := "outer"; parameters := "()"; returnType := "void";
                      class := None; call := Some ["deep"] |} ]
             /\ name r = "outer"
             /\ call r = Some calls
             /\ functionName ∈ calls).
Proof.
  assert (Hrun : analyzeFunctions callInsideInnerProgram
                 = Ok [ {| name := "outer"; parameters := "()";
                           returnType := "void"; class := None;
                           call := Some ["deep"] |} ])
    by (vm_compute; reflexivity).
  destruct (nested_calls_attributed_to_enclosing_function _ _ Hrun) as (Hall & Hevery).
  split; [exact Hrun|]. split; [exact Hall|].
  refine (Hevery callInsideInner [callInsideInnerProgram] callInsideInner "outer" false
            (take 21 (preorder callInsideInner)) deepCall
            (drop 22 (preorder callInsideInner)) _ _ _ _ _ _ _ _).
  - apply list_elem_of_In. vm_compute. tauto.
  - reflexivity.
  - intros a Ha. apply list_elem_of_In in Ha. simpl in Ha.
    destruct Ha as [<- | []]. reflexivity.
  - reflexivity.
  - reflexivity.
  - reflexivity.
  - vm_compute. reflexivity.
  - reflexivity.
Defined.

(** C6. The calls of every record are a sequence without repetition in
    the order of first occurrence.  Every record of the output is built
    at a step of the walk for a function node such that the calls of the
    record are the names stored during the pre-order walk of that very
    function node, each name once, at the place of its first occurrence;
    the field is absent when no name is stored. *)
Theorem calls_deduplicated_in_first_occurrence_order rootNode records :
  analyzeFunctions rootNode = Ok records ->
  exists vs,
    sublist vs (visits rootNode [])
    /\ Forall2 callsInOrder vs records.
Proof.
  intros Hrun. apply analyzeFunctions_builtAt in Hrun as (vs & Hsub & Hall).
  exists vs. split; [exact Hsub|].
  eapply Forall2_impl; [exact Hall|].
  intros v r (_ & _ & cn & _ & Hr).
  pose proof Hr as Hshape.
  apply extractFunctionInfo_Some in Hshape
    as (fnode & isArrow & cf & Hsel & _ & _ & _ & Hext & _ & Hcall).
  destruct (extractCalledFunctions_first_occurrences _ _ _ Hext) as (log & Hlog & ->).
  exists cn, fnode, isArrow, log. split; [exact Hr|]. split; [exact Hsel|].
  split; [exact Hlog|]. split; [apply NoDup_firstOccurrences | exact Hcall].
Qed.

(** On [function twice(){ a(); b(); a(); }] the stored names are
    [a], [b], [a] and the calls are [a], [b]. *)
Lemma calls_deduplicated_witness :
  callSequence calledTwice = Ok ["a"; "b"; "a"]
  /\ firstOccurrences ["a"; "b"; "a"] = ["a"; "b"]
  /\ exists vs,
       sublist vs (visits calledTwiceProgram [])
       /\ Forall2 callsInOrder vs
            [ {| name := "twice"; parameters := "()"; returnType := "void";
                 class := None; call := Some ["a"; "b"] |} ].
Proof.
  split; [vm_compute; reflexivity|]. split; [vm_compute; reflexivity|].
  apply (calls_deduplicated_in_first_occurrence_order calledTwiceProgram).
  vm_compute. reflexivity.
Defined.

Lemma visitInOrder_names_from_visits nodes :
  forall st0 st' x,
    visitInOrder Set_add nodes st0 = Ok st' ->
    x ∈ calledFunctions st' ->
    x ∈ calledFunctions st0
    \/ (x <> "console.log"
        /\ exists before d after st,
             nodes = before ++ d :: after
             /\ hasType "call_expression" d = true
             /\ visitInOrder Set_add before st0 = Ok st
             /\ calleeName (classInstances st) d = Ok x).
Proof.
  induction nodes as [|n rest IH]; intros st0 st' x Hrun Hx; simpl in Hrun.
  - injection Hrun as <-. auto.
  - apply bind_Ok in Hrun as (st1 & Hvisit & Hrest).
    destruct (IH _ _ _ Hrest Hx)
      as [Hx1 | (Hlog & before & d & after & st & -> & Hcall & Hst & Hname)].
    + pose proof Hvisit as Hstep.
      apply visitForCalls_adds in Hstep
        as [Hsame | (Hcall & f & Hf & Hlog & Hadd)].
      * left. congruence.
      * rewrite Hadd in Hx1. apply elem_of_Set_add in Hx1 as [-> | Hx0]; [|auto].
        right. split; [exact Hlog|]. exists [], n, rest, st0. auto.
    + right. split; [exact Hlog|]. exists (n :: before), d, after, st.
      split; [reflexivity|]. split; [exact Hcall|]. split; [|exact Hname].
      simpl. rewrite Hvisit. exact Hst.
Qed.

(** X7. Every entry of the list that [extractCalledFunctions] returns is
    the name of a call expression of the subtree, as resolved with the
    alias table that the walk has made when it comes to that call
    expression, and is not "console.log": nothing but calls is stored. *)
Theorem calls_come_from_call_expressions node className calls x :
  extractCalledFunctions node className = Ok calls ->
  x ∈ calls ->
  x <> "console.log"
  /\ exists before d after st,
       preorder node = before ++ d :: after
       /\ hasType "call_expression" d = true
       /\ stateBefore before = Ok st
       /\ calleeName (classInstances st) d = Ok x.
Proof.
  rewrite extractCalledFunctions_preorder. intros Hrun Hx.
  apply bind_Ok in Hrun as (st' & Hrun & [= <-]). unfold stateBefore in *.
  destruct (visitInOrder_names_from_visits _ _ _ _ Hrun Hx) as [Hnil | Hfrom];
    [|exact Hfrom].
  simpl in Hnil. apply elem_of_nil in Hnil as [].
Qed.

Lemma calls_come_from_call_expressions_witness :
  "Foo.bar" <> "console.log"
  /\ exists before d after st,
       preorder aliasScenario = before ++ d :: after
       /\ hasType "call_expression" d = true
       /\ stateBefore before = Ok st
       /\ calleeName (classInstances st) d = Ok "Foo.bar".
Proof.
  refine (calls_come_from_call_expressions aliasScenario None
            ["Foo.bar"; "obj.baz"] "Foo.bar" _ _).
  - vm_compute. reflexivity.
  - left.
Defined.

(** ** Candidates without the children that are read *)

Lemma hasChild_false_find t n :
  hasChild t n = false -> find (hasType t) (children n) = None.
Proof. apply find_existsb_false. Qed.

Lemma incomplete_candidate_no_record node className parents :
  candidateComplete node = false ->
  extractFunctionInfo node className parents = None.
Proof.
  unfold candidateComplete, extractFunctionInfo, extractFunctionInfo_try,
    selectFunction.
  intros Hincomplete.
  assert (Hparams : forall fnode (nm : string) (isArrow : bool),
             hasChild "formal_parameters" fnode = false ->
             match
               (if isNestedFunction parents then Ok None
                else
                  let* parameters :=
                    textOf (find (hasType "formal_parameters") (children fnode)) in
                  let isAsync := existsb (hasType "async") (children fnode) in
                  let returnType := determineReturnType fnode isAsync isArrow in
                  let* calledFunctions := extractCalledFunctions fnode className in
                  Ok (Some {| name := nm;
                              parameters := parameters;
                              returnType := returnType;
                              class := if truthyOpt className then className else None;
                              call := match calledFunctions with
                                      | [] => None
                                      | _ :: _ => Some calledFunctions
                                      end |}))
             with
             | Ok info => info
             | Throw => None
             end = None).
  { intros fnode nm isArrow Hp. destruct (isNestedFunction parents); [reflexivity|].
    rewrite (hasChild_false_find _ _ Hp). reflexivity. }
  destruct (hasType "method_definition" node).
  { destruct (hasChild "property_identifier" node) eqn:Hname; simpl in Hincomplete.
    - apply existsb_find in Hname as (c & ->). simpl. apply Hparams, Hincomplete.
    - rewrite (hasChild_false_find _ _ Hname). reflexivity. }
  destruct (hasType "function_declaration" node).
  { destruct (hasChild "identifier" node) eqn:Hname; simpl in Hincomplete.
    - apply existsb_find in Hname as (c & ->). simpl. apply Hparams, Hincomplete.
    - rewrite (hasChild_false_find _ _ Hname). reflexivity. }
  destruct (_ || _); [|discriminate].
  destruct (find _ (children node)) as [declarator|]; [|discriminate].
  destruct (find _ (children declarator)) as [value|]; [|discriminate].
  destruct (hasChild "identifier" declarator) eqn:Hname; simpl in Hincomplete.
  - apply existsb_find in Hname as (c & ->). simpl. apply Hparams, Hincomplete.
  - rewrite (hasChild_false_find _ _ Hname). reflexivity.
Qed.

(** C7. On the trees of the grammar, where every class declaration has
    its identifier, [analyzeFunctions] never throws and returns its list
    of records.  A candidate that misses the name child of its kind or the
    parameter list of its function node gives no record and leaves the
    state of the walk as it is; more generally an error thrown while a
    record is built is caught, and at a node that is not a class
    declaration the walk goes on with its output unchanged or with one
    more record. *)
Theorem analyzeFunctions_never_throws :
  (forall rootNode,
      classesNamed rootNode = true ->
      exists records, analyzeFunctions rootNode = Ok records)
  /\ (forall node className parents st,
        candidateComplete node = false ->
        extractFunctionInfo node className parents = None
        /\ enterNode node parents st = Ok st)
  /\ (forall node parents st,
        hasType "class_declaration" node = false ->
        extractFunctionInfo_try node (currentClass st) parents = Throw ->
        enterNode node parents st = Ok st)
  /\ (forall node parents st,
        hasType "class_declaration" node = false ->
        enterNode node parents st = Ok st
        \/ exists func,
             enterNode node parents st
             = Ok (mkWalkState (push func (functions st)) (currentClass st))).
Proof.
  destruct traverse_throws_exactly_at_unnamed_class as (Hstep & _ & Hreturns & _).
  split; [exact Hreturns|]. split; [|split; [|exact Hstep]].
  - intros node className parents st Hincomplete.
    split; [apply incomplete_candidate_no_record, Hincomplete|].
    unfold enterNode.
    destruct (hasType "class_declaration" node) eqn:Hclass.
    { unfold candidateComplete in Hincomplete.
      rewrite (hasType_other _ "method_definition" node Hclass) in Hincomplete
        by discriminate.
      rewrite (hasType_other _ "function_declaration" node Hclass) in Hincomplete
        by discriminate.
      rewrite (hasType_other _ "lexical_declaration" node Hclass) in Hincomplete
        by discriminate.
      rewrite (hasType_other _ "variable_declaration" node Hclass) in Hincomplete
        by discriminate.
      discriminate. }
    rewrite (incomplete_candidate_no_record _ _ _ Hincomplete).
    destruct (_ || _); reflexivity.
  - intros node parents st Hclass Hthrow. unfold enterNode. rewrite Hclass.
    unfold extractFunctionInfo. rewrite Hthrow.
    destruct (_ || _); reflexivity.
Qed.

(** A method without name in front of [function after() {}]; a binding
    of an arrow function without parameter list. *)
Lemma analyzeFunctions_never_throws_witness :
  (exists records, analyzeFunctions methodWithoutName = Ok records)
  /\ enterNode (N "method_definition" "() {}" [emptyParameters; block "{}" []])
       [methodWithoutName] (mkWalkState [] None)
     = Ok (mkWalkState [] None)
  /\ enterNode bareParameterDeclaration [bareParameterProgram] (mkWalkState [] None)
     = Ok (mkWalkState [] None).
Proof.
  destruct analyzeFunctions_never_throws as (Hreturns & Hskip & Hcaught & _).
  split; [|split].
  - apply Hreturns. reflexivity.
  - apply (Hskip _ None). reflexivity.
  - apply Hcaught; reflexivity.
Defined.
